(** * EarthEngineLayer: the state-driven tile and animation pipeline

    A shallow embedding of [modules/earthengine-layers/src/earth-engine-layer.js].

    Conventions of the embedding.
    - A JavaScript [Number] that the layer computes with is a binary64
      value ([Number]): a finite double, written as the rational it denotes,
      an infinity, or NaN; the two zeros are one.  [/] and [*] round to
      nearest, ties to even, with gradual underflow and overflow to an
      infinity; [%] is exact.  A number that a prop or the state holds and
      that the layer passes on or tests for zero (a visualization parameter,
      the frame count, the animation speed) is written as a rational ([Q]);
      [_animate] computes from the doubles nearest to them, which are these
      numbers themselves whenever they are doubles.  Integers that the code
      only reads (tile coordinates, pixel sizes, the millisecond clock) are
      [Z].
    - A JavaScript object is a pair of an address and its contents: [===]
      compares addresses, structural comparison looks at the contents.
    - [async] methods run in the monad [M]: the module-level [accessToken],
      [this.state] and the trace of calls that leave the layer are threaded
      through, and a rejected promise or a [throw] short-circuits.
    - What the layer imports from other packages (the Earth Engine client,
      the image loader, [createImageBitmap], [Date.now]) and the two helpers
      of [./utils] and [./ee-api] are fields of an environment [Env]. *)

From Stdlib Require Import ZArith QArith Qround Qpower String List Lia Lqa.
From stdpp Require Import gmap strings list pretty.

Open Scope string_scope.

(** ** JavaScript values *)

(** Scalars that occur in visualization parameters and thumbnail arguments. *)
Inductive Atom : Type :=
| ANull
| ABool (b : bool)
| ANum (q : Q)
| AStr (s : string).

(** [ee.Geometry.Rectangle(coords, proj, geodesic)]. *)
Record Geometry : Type := Rectangle {
  rect_coords : list Q;
  rect_proj : string;
  rect_geodesic : bool
}.

Inductive Val : Type :=
| VAtom (a : Atom)
| VArr (l : list Atom)
| VGeometry (g : Geometry).

(** An object literal: where it lives and what it holds. *)
Record JsObject : Type := {
  obj_addr : nat;
  obj_props : gmap string Val
}.

(** The [visParams] prop: [undefined] (a missing key of [oldProps]), [null]
    (the default) or an object. *)
Inductive VisParams : Type :=
| VisUndefined
| VisNull
| VisObject (o : JsObject).

(** [a === b] on [visParams]. *)
Definition vis_strict_eq (a b : VisParams) : bool :=
  match a, b with
  | VisUndefined, VisUndefined => true
  | VisNull, VisNull => true
  | VisObject o1, VisObject o2 => Nat.eqb (obj_addr o1) (obj_addr o2)
  | _, _ => false
  end.

(** [{...visParams}]: spreading [null] or [undefined] adds nothing. *)
Definition spread (v : VisParams) : gmap string Val :=
  match v with
  | VisObject o => obj_props o
  | _ => ∅
  end.

(** An Earth Engine object as the layer looks at it: its identity and which
    of the two methods it has. *)
Record EEObject : Type := {
  ee_addr : nat;
  has_getMap : bool;
  has_getFilmstripThumbURL : bool
}.

(** What can sit in the [eeObject] prop and in [state.eeObject]. *)
Inductive EEVal : Type :=
| EEUndefined
| EENull
| EEString (s : string)
| EEArray (addr : nat) (len : nat)
| EEObj (o : EEObject).

Definition ee_strict_eq (a b : EEVal) : bool :=
  match a, b with
  | EEUndefined, EEUndefined => true
  | EENull, EENull => true
  | EEString s1, EEString s2 => String.eqb s1 s2
  | EEArray a1 _, EEArray a2 _ => Nat.eqb a1 a2
  | EEObj o1, EEObj o2 => Nat.eqb (ee_addr o1) (ee_addr o2)
  | _, _ => false
  end.

Definition ee_truthy (v : EEVal) : bool :=
  match v with
  | EEUndefined | EENull => false
  | EEString s => negb (String.eqb s "")
  | EEArray _ _ | EEObj _ => true
  end.

(** [v.getMap] and [v.getFilmstripThumbURL] as conditions, on a truthy [v]. *)
Definition ee_getMap (v : EEVal) : bool :=
  match v with EEObj o => has_getMap o | _ => false end.

Definition ee_getFilmstripThumbURL (v : EEVal) : bool :=
  match v with EEObj o => has_getFilmstripThumbURL o | _ => false end.

(** [!s] on a string-or-missing value. *)
Definition str_falsy (s : option string) : bool :=
  match s with
  | None => true
  | Some s => String.eqb s ""
  end.

(** [!n] on a number-or-missing value. *)
Definition num_falsy (n : option Q) : bool :=
  match n with
  | None => true
  | Some q => Qeq_bool q 0%Q
  end.

(** ** Images *)

Record Image : Type := {
  img_url : string;
  img_width : Z;
  img_height : Z
}.

(** What a tile holds: a decoded image, or the bitmap that
    [createImageBitmap(image, sx, sy, sw, sh)] resolves to. *)
Inductive Picture : Type :=
| Whole (img : Image)
| Crop (img : Image) (sx sy sw sh : Z).

Definition pic_width (p : Picture) : Z :=
  match p with Whole i => img_width i | Crop _ _ _ sw _ => sw end.

Definition pic_height (p : Picture) : Z :=
  match p with Whole i => img_height i | Crop _ _ _ _ sh => sh end.

Definition pic_offset_y (p : Picture) : Z :=
  match p with Whole _ => 0%Z | Crop _ _ sy _ _ => sy end.

(** ** Numbers *)

(** A binary64 value.  A finite one is the rational it denotes. *)
Inductive Number : Type :=
| Finite (q : Q)
| Infinity (negative : bool)
| NaN.

(** The whole number [i] as a Number. *)
Definition whole (i : Z) : Number := Finite (inject_Z i).

(** The binade of a positive rational: the [e] with [2^e <= q < 2^(e+1)]. *)
Definition binade (q : Q) : Z :=
  let e := (Z.log2 (Qnum q) - Z.log2 (Zpos (Qden q)))%Z in
  if Qle_bool (2 ^ e) q then e else (e - 1)%Z.

(** The exponent of the last place of a double in binade [e]: 53 bits, and
    never below the last place of the subnormal numbers. *)
Definition fexp (e : Z) : Z := Z.max (e - 52) (-1074).

(** The nearest integer, the even one on a tie. *)
Definition rne (q : Q) : Z :=
  let f := Qfloor q in
  match Qcompare (q - inject_Z f) (1 # 2) with
  | Lt => f
  | Gt => (f + 1)%Z
  | Eq => if Z.even f then f else (f + 1)%Z
  end.

(** The double nearest to a positive rational, before overflow. *)
Definition round_pos (q : Q) : Q :=
  let f := fexp (binade q) in
  Qred (inject_Z (rne (q / 2 ^ f)) * 2 ^ f).

Definition Qneg (q : Q) : bool := negb (Qle_bool 0 q).

(** The Number that an exact result rounds to. *)
Definition round64 (q : Q) : Number :=
  match Qcompare q 0 with
  | Eq => Finite 0
  | Gt =>
      let r := round_pos q in
      if Qle_bool (2 ^ 1024) r then Infinity false else Finite r
  | Lt =>
      let r := round_pos (- q) in
      if Qle_bool (2 ^ 1024) r then Infinity true else Finite (- r)
  end.

(** Rounding toward zero. *)
Definition js_trunc (q : Q) : Z :=
  if Qle_bool 0%Q q then Qfloor q else Qceiling q.

(** The remainder of two rationals: it has the sign of [a]. *)
Definition js_rem (a b : Q) : Q :=
  (a - b * inject_Z (js_trunc (a / b)))%Q.

(** [a / b] *)
Definition num_div (a b : Number) : Number :=
  match a, b with
  | Finite x, Finite y =>
      if Qeq_bool y 0 then
        if Qeq_bool x 0 then NaN else Infinity (Qneg x)
      else round64 (x / y)
  | Finite x, Infinity _ => Finite 0
  | Infinity s, Finite y => Infinity (xorb s (Qneg y))
  | _, _ => NaN
  end.

(** [a % b]: the remainder of two doubles is a double, so nothing is
    rounded. *)
Definition num_rem (a b : Number) : Number :=
  match a, b with
  | Finite x, Finite y =>
      if Qeq_bool y 0 then NaN else Finite (Qred (js_rem x y))
  | Finite x, Infinity _ => Finite x
  | _, _ => NaN
  end.

(** [a * b] *)
Definition num_mul (a b : Number) : Number :=
  match a, b with
  | Finite x, Finite y => round64 (x * y)
  | Finite x, Infinity s =>
      if Qeq_bool x 0 then NaN else Infinity (xorb (Qneg x) s)
  | Infinity s, Finite y =>
      if Qeq_bool y 0 then NaN else Infinity (xorb s (Qneg y))
  | Infinity s, Infinity s' => Infinity (xorb s s')
  | _, _ => NaN
  end.

(** [Math.floor] *)
Definition Math_floor (x : Number) : Number :=
  match x with
  | Finite q => Finite (inject_Z (Qfloor q))
  | _ => x
  end.

(** ** Props, state, errors *)

Inductive RenderMethod : Type := filmstrip | imageTiles.

Module Props.
Record t : Type := mk {
  token : option string;
  eeObject : EEVal;
  visParams : VisParams;
  animate : bool;
  animationSpeed : Q
}.
End Props.

Record ChangeFlags : Type := { dataChanged : bool }.

Module State.
Record t : Type := mk {
  eeObject : EEVal;
  mapid : option string;
  urlFormat : option string;
  renderMethod : option RenderMethod;
  nFrames : option Q;
  frame : option Number
}.
End State.

(** [this.state = {}] *)
Definition initializeState : State.t :=
  State.mk EEUndefined None None None None None.

Inductive Exn : Type := Error (message : string).

Inductive Res (A : Type) : Type :=
| Ok (a : A)
| Throw (e : Exn).
Arguments Ok {A} a.
Arguments Throw {A} e.

(** The answer of [eeObject.getMap]. *)
Record MapId : Type := {
  mapid_of : option string;
  urlFormat_of : option string
}.

Record BBox : Type := {
  west : Q; north : Q; east : Q; south : Q
}.

Record Tile : Type := { tile_x : Z; tile_y : Z; tile_z : Z; bbox : BBox }.

(** Calls that leave the layer, in the order they are made. *)
Inductive Event : Type :=
| CallInitialize (token : string)
| CallGetMap (o : EEVal) (vis : VisParams)
| CallGetFilmstripThumbURL (o : EEVal) (args : gmap string Val)
| CallLoad (url : string) (imagebitmap : bool)
| CallCreateImageBitmap (img : Image) (sx sy sw sh : Z).

(** What the layer cannot see into. *)
Record Env : Type := {
  (** [eeApi.initialize({token})]: [None] when the promise resolves. *)
  eeApi_initialize : string -> option Exn;
  ee_Deserializer_fromJSON : string -> Res EEVal;
  ee_ImageCollection : EEVal -> Res EEVal;
  promisifyEEMethod_getMap : EEVal -> VisParams -> Res MapId;
  promisifyEEMethod_getFilmstripThumbURL : EEVal -> gmap string Val -> Res string;
  (** [load(url, ImageLoader, options)]; the flag is the [imagebitmap]
      option. *)
  load : string -> bool -> Res Image;
  (** [createImageBitmap]: [None] when the promise resolves. *)
  createImageBitmap_rejects : Image -> Z -> Z -> Z -> Z -> option Exn;
  (** [Date.now()], in milliseconds. *)
  Date_now : Z
}.

(** ** The monad of the layer's methods *)

Record World : Type := {
  accessToken : option string;
  state : State.t;
  trace : list Event
}.

Definition M (A : Type) : Type := World -> Res A * World.

Definition ret {A} (a : A) : M A := fun w => (Ok a, w).

Definition bind {A B} (m : M A) (k : A -> M B) : M B :=
  fun w =>
    match m w with
    | (Ok a, w') => k a w'
    | (Throw e, w') => (Throw e, w')
    end.

Definition throw {A} (e : Exn) : M A := fun w => (Throw e, w).

Notation "'let*' x ':=' m 'in' k" := (bind m (fun x => k))
  (at level 10, x name, m at level 100, k at level 200, only parsing).
Notation "m ';;;' k" := (bind m (fun _ => k))
  (at level 100, k at level 200, right associativity, only parsing).

Definition get_state : M State.t := fun w => (Ok (state w), w).

Definition get_accessToken : M (option string) :=
  fun w => (Ok (accessToken w), w).

Definition set_accessToken (t : string) : M unit :=
  fun w => (Ok tt, {| accessToken := Some t; state := state w; trace := trace w |}).

(** [this.setState(patch)] *)
Definition setState (patch : State.t -> State.t) : M unit :=
  fun w => (Ok tt, {| accessToken := accessToken w; state := patch (state w); trace := trace w |}).

Definition emit (e : Event) : M unit :=
  fun w => (Ok tt, {| accessToken := accessToken w; state := state w; trace := trace w ++ [e] |}).

(** Settling an awaited result. *)
Definition settle {A} (r : Res A) : M A := fun w => (r, w).

(** The patches that the layer applies. *)
Definition with_eeObject (v : EEVal) (s : State.t) : State.t :=
  State.mk v (State.mapid s) (State.urlFormat s) (State.renderMethod s)
           (State.nFrames s) (State.frame s).

Definition with_descriptor (m u : option string) (r : RenderMethod) (s : State.t) : State.t :=
  State.mk (State.eeObject s) m u (Some r) (State.nFrames s) (State.frame s).

Definition with_nFrames (n : Q) (s : State.t) : State.t :=
  State.mk (State.eeObject s) (State.mapid s) (State.urlFormat s) (State.renderMethod s)
           (Some n) (State.frame s).

Definition with_frame (f : Number) (s : State.t) : State.t :=
  State.mk (State.eeObject s) (State.mapid s) (State.urlFormat s) (State.renderMethod s)
           (State.nFrames s) (Some f).

(** ** Strings and numbers of the standard library of the language *)

Fixpoint string_drop (n : nat) (s : string) : string :=
  match n, s with
  | O, _ => s
  | S _, EmptyString => EmptyString
  | S n', String _ s' => string_drop n' s'
  end.

(** [s.replace(pat, rep)] with a string pattern: the first occurrence only.
    The replacement is taken literally, which is what the language does for
    a replacement without a dollar sign. *)
Fixpoint replace (pat rep s : string) : string :=
  if String.prefix pat s then String.append rep (string_drop (String.length pat) s)
  else
    match s with
    | EmptyString => EmptyString
    | String c s' => String c (replace pat rep s')
    end.

(** [String(n)] for an integer. *)
Definition to_string (n : Z) : string := pretty n.

Section Layer.

Variable env : Env.

(** ** Session *)

(** [_updateToken].  A [null] token is falsy, so the comparison with the
    active token only ever decides between two strings. *)
Definition _updateToken (props : Props.t) : M unit :=
  let* current := get_accessToken in
  if str_falsy (Props.token props) || bool_decide (Props.token props = current) then
    ret tt
  else
    match Props.token props with
    | None => ret tt
    | Some token =>
        emit (CallInitialize token) ;;;
        match eeApi_initialize env token with
        | Some e => throw e
        | None => set_accessToken token
        end
    end.

(** ** Animation clock *)

(** The expression that [_animate] stores in [frame], for a given
    [timestamp]. *)
Definition frame_at (timestamp nFrames animationSpeed : Number) : Number :=
  let loopTime := num_div nFrames animationSpeed in
  Math_floor (num_mul (num_div (num_rem timestamp loopTime) loopTime) nFrames).

(** [_animate]; [this_props] is [this.props].  The frame count and the speed
    enter the arithmetic as doubles. *)
Definition _animate (this_props : Props.t) : M unit :=
  let* st := get_state in
  if num_falsy (State.nFrames st) then ret tt
  else
    match State.nFrames st with
    | None => ret tt
    | Some nFrames =>
        let animationSpeed := Props.animationSpeed this_props in
        let timestamp := num_div (round64 (inject_Z (Date_now env))) (Finite 1000) in
        setState (with_frame (frame_at timestamp (round64 nFrames)
                                (round64 animationSpeed)))
    end.

(** ** Object handle *)

(** [_updateEEObject]: deserialize a string, force a collection when
    animating, and store [null] for an empty array. *)
Definition _updateEEObject (props oldProps : Props.t) : M unit :=
  if ee_strict_eq (Props.eeObject props) (Props.eeObject oldProps) then ret tt
  else
    let* eeObject :=
      match Props.eeObject props with
      | EEString json => settle (ee_Deserializer_fromJSON env json)
      | v => ret v
      end in
    let* eeObject :=
      if ee_truthy eeObject && Props.animate props
      then settle (ee_ImageCollection env eeObject)
      else ret eeObject in
    let eeObject :=
      match Props.eeObject props with
      | EEArray _ O => EENull
      | _ => eeObject
      end in
    setState (with_eeObject eeObject).

(** ** Render descriptor *)

(** [_updateEEVisParams] *)
Definition _updateEEVisParams (props oldProps : Props.t) (changeFlags : ChangeFlags) : M unit :=
  if vis_strict_eq (Props.visParams props) (Props.visParams oldProps)
     && negb (dataChanged changeFlags)
  then ret tt
  else
    let* st := get_state in
    let eeObject := State.eeObject st in
    if negb (ee_truthy eeObject) then ret tt
    else if negb (ee_getMap eeObject)
    then throw (Error "eeObject must have a getMap() method")
    else
      let* renderMethod :=
        if Props.animate props then
          if negb (ee_getFilmstripThumbURL eeObject)
          then throw (Error "eeObject must have a getFilmstripThumbURL method to animate.")
          else ret filmstrip
        else ret imageTiles in
      emit (CallGetMap eeObject (Props.visParams props)) ;;;
      let* r := settle (promisifyEEMethod_getMap env eeObject (Props.visParams props)) in
      setState (with_descriptor (mapid_of r) (urlFormat_of r) renderMethod).

(** [updateState]: the four steps, each awaited before the next. *)
Definition updateState (props oldProps : Props.t) (changeFlags : ChangeFlags) : M unit :=
  _updateToken props ;;;
  _updateEEObject props oldProps ;;;
  _updateEEVisParams props oldProps changeFlags ;;;
  _animate props.

(** ** Tiles *)

Definition TILE_SIZE : Z := 256%Z.

(** [urlFormat.replace('{x}', x).replace('{y}', y).replace('{z}', z)] *)
Definition image_url (urlFormat : string) (x y z : Z) : string :=
  replace "{z}" (to_string z)
    (replace "{y}" (to_string y)
       (replace "{x}" (to_string x) urlFormat)).

(** [getImageTileData]: [null], or the array that holds the one image. *)
Definition getImageTileData (tile : Tile) : M (option (list Picture)) :=
  let* st := get_state in
  if str_falsy (State.urlFormat st) then ret None
  else
    match State.urlFormat st with
    | None => ret None
    | Some urlFormat =>
        let imageUrl := image_url urlFormat (tile_x tile) (tile_y tile) (tile_z tile) in
        emit (CallLoad imageUrl false) ;;;
        let* image := settle (load env imageUrl false) in
        ret (Some [Whole image])
    end.

(** [{...visParams, dimensions: [TILE_SIZE, TILE_SIZE], region, crs: 'EPSG:3857'}]:
    a later key of an object literal replaces an earlier one. *)
Definition film_args (visParams : VisParams) (b : BBox) : gmap string Val :=
  let region := Rectangle [west b; south b; east b; north b] "EPSG:4326" false in
  <["crs" := VAtom (AStr "EPSG:3857")]>
    (<["region" := VGeometry region]>
       (<["dimensions" := VArr [ANum (inject_Z TILE_SIZE); ANum (inject_Z TILE_SIZE)]]>
          (spread visParams))).

(** One promise of [createImageBitmap]: the call is made at once, what it
    settles to is looked at only by whoever awaits it. *)
Definition createImageBitmap (image : Image) (sx sy sw sh : Z) : M (Res Picture) :=
  emit (CallCreateImageBitmap image sx sy sw sh) ;;;
  ret (match createImageBitmap_rejects env image sx sy sw sh with
       | Some e => Throw e
       | None => Ok (Crop image sx sy sw sh)
       end).

(** [for (let i = 0; i < nFrames; i++) slices.push(createImageBitmap(...))],
    from round [i] on.  The fuel bounds the number of rounds; the fetch hands
    in the height of the image, which is enough ([strip_rounds_fuel]). *)
Fixpoint slice_loop (fuel : nat) (image : Image) (nFrames : Q) (i : Z) : M (list (Res Picture)) :=
  match fuel with
  | O => ret []
  | S fuel' =>
      if Qlt_le_dec (inject_Z i) nFrames then
        let* p := createImageBitmap image 0%Z (i * TILE_SIZE)%Z TILE_SIZE TILE_SIZE in
        let* rest := slice_loop fuel' image nFrames (i + 1)%Z in
        ret (p :: rest)
      else ret []
  end.

(** [Promise.all]: every value in order, or a rejection (here the one of
    the first rejected promise of the array). *)
Fixpoint all_settled {A} (ps : list (Res A)) : Res (list A) :=
  match ps with
  | [] => Ok []
  | Ok a :: ps' =>
      match all_settled ps' with
      | Ok l => Ok (a :: l)
      | Throw e => Throw e
      end
  | Throw e :: _ => Throw e
  end.

Definition Promise_all {A} (ps : list (Res A)) : M (list A) :=
  settle (all_settled ps).

(** [getFilmstripTileData]; [this_props] is [this.props]. *)
Definition getFilmstripTileData (this_props : Props.t) (tile : Tile) : M (option (list Picture)) :=
  let* st := get_state in
  let eeObject := State.eeObject st in
  let filmArgs := film_args (Props.visParams this_props) (bbox tile) in
  emit (CallGetFilmstripThumbURL eeObject filmArgs) ;;;
  let* imageUrl := settle (promisifyEEMethod_getFilmstripThumbURL env eeObject filmArgs) in
  emit (CallLoad imageUrl true) ;;;
  let* image := settle (load env imageUrl true) in
  let nFrames := (inject_Z (img_height image) / inject_Z TILE_SIZE)%Q in
  let* slices := slice_loop (Z.to_nat (img_height image)) image nFrames 0%Z in
  setState (with_nFrames nFrames) ;;;
  let* frames := Promise_all slices in
  ret (Some frames).

(** [getTileData] *)
Definition getTileData (this_props : Props.t) (tile : Tile) : M (option (list Picture)) :=
  let* st := get_state in
  match State.renderMethod st with
  | Some filmstrip => getFilmstripTileData this_props tile
  | _ => getImageTileData tile
  end.

End Layer.

(** ** Worlds that the statements name *)

(** The world after a session has been established for [t]. *)
Definition established (t : string) (w : World) : World :=
  {| accessToken := Some t; state := state w;
     trace := trace w ++ [CallInitialize t] |}.

(** The world after a call for [t] that the service turned down. *)
Definition turned_down (t : string) (w : World) : World :=
  {| accessToken := accessToken w; state := state w;
     trace := trace w ++ [CallInitialize t] |}.

(** The world after the [getMap] round trip has been started. *)
Definition asked_getMap (o : EEVal) (vis : VisParams) (w : World) : World :=
  {| accessToken := accessToken w; state := state w;
     trace := trace w ++ [CallGetMap o vis] |}.

(** The world after [getMap] has answered [m] and the descriptor is stored. *)
Definition resolved (o : EEVal) (vis : VisParams) (m : MapId) (r : RenderMethod)
    (w : World) : World :=
  {| accessToken := accessToken w;
     state := with_descriptor (mapid_of m) (urlFormat_of m) r (state w);
     trace := trace w ++ [CallGetMap o vis] |}.

(** [renderMethod] as [_updateEEVisParams] chooses it. *)
Definition method_for (animate : bool) : RenderMethod :=
  if animate then filmstrip else imageTiles.

(** ** Structural comparison *)

Definition Atom_eqb (a b : Atom) : bool :=
  match a, b with
  | ANull, ANull => true
  | ABool x, ABool y => Bool.eqb x y
  | ANum x, ANum y => Qeq_bool x y
  | AStr x, AStr y => String.eqb x y
  | _, _ => false
  end.

Fixpoint list_eqb {A} (eqb : A -> A -> bool) (l1 l2 : list A) : bool :=
  match l1, l2 with
  | [], [] => true
  | x :: l1', y :: l2' => eqb x y && list_eqb eqb l1' l2'
  | _, _ => false
  end.

Definition Geometry_eqb (g h : Geometry) : bool :=
  list_eqb Qeq_bool (rect_coords g) (rect_coords h)
  && String.eqb (rect_proj g) (rect_proj h)
  && Bool.eqb (rect_geodesic g) (rect_geodesic h).

Definition Val_eqb (a b : Val) : bool :=
  match a, b with
  | VAtom x, VAtom y => Atom_eqb x y
  | VArr x, VArr y => list_eqb Atom_eqb x y
  | VGeometry x, VGeometry y => Geometry_eqb x y
  | _, _ => false
  end.

Definition entry_eqb (a b : string * Val) : bool :=
  String.eqb (fst a) (fst b) && Val_eqb (snd a) (snd b).

(** Modelled from the spec: [deepEqual] of [./utils], which is not among the
    sources.  The spec has [visParams] "compared by deep structural equality
    (not reference)": two values are equal when they are both [undefined],
    both [null], or objects with the same keys holding equal values, wherever
    the objects live. *)
Definition deepEqual (a b : VisParams) : bool :=
  match a, b with
  | VisUndefined, VisUndefined => true
  | VisNull, VisNull => true
  | VisObject o1, VisObject o2 =>
      list_eqb entry_eqb (map_to_list (obj_props o1)) (map_to_list (obj_props o2))
  | _, _ => false
  end.

(** The guard of [_updateEEVisParams] lets the call through. *)
Definition guard_open (props oldProps : Props.t) (changeFlags : ChangeFlags) : Prop :=
  vis_strict_eq (Props.visParams props) (Props.visParams oldProps) = false
  \/ dataChanged changeFlags = true.

(** ** Filmstrip slices, as the statements name them *)

(** The call that slices frame [i]. *)
Definition slice_call (image : Image) (i : Z) : Event :=
  CallCreateImageBitmap image 0%Z (i * TILE_SIZE)%Z TILE_SIZE TILE_SIZE.

(** Frame [i]: the square window at vertical offset [i * 256]. *)
Definition frame_of (image : Image) (i : Z) : Picture :=
  Crop image 0%Z (i * TILE_SIZE)%Z TILE_SIZE TILE_SIZE.

(** What the promise of frame [i] settles to. *)
Definition slice_outcome (env : Env) (image : Image) (i : Z) : Res Picture :=
  match createImageBitmap_rejects env image 0%Z (i * TILE_SIZE)%Z TILE_SIZE TILE_SIZE with
  | Some e => Throw e
  | None => Ok (frame_of image i)
  end.

(** The quotient that the fetch records as [nFrames]. *)
Definition strip_quotient (image : Image) : Q :=
  (inject_Z (img_height image) / inject_Z TILE_SIZE)%Q.

(** The number of rounds of the slicing loop. *)
Definition strip_rounds (image : Image) : Z := Qceiling (strip_quotient image).

(** The world once the filmstrip is fetched and every slice is requested. *)
Definition sliced (o : EEVal) (args : gmap string Val) (url : string) (image : Image)
    (w : World) : World :=
  {| accessToken := accessToken w;
     state := with_nFrames (strip_quotient image) (state w);
     trace := trace w
              ++ [CallGetFilmstripThumbURL o args; CallLoad url true]
              ++ (slice_call image <$> seqZ 0 (strip_rounds image)) |}.

(** ** Replacing the first occurrence, in the spec's words *)

(** [s] reads [pre], then [pat], then [post], and [pat] starts nowhere
    earlier in [s]. *)
Definition occurs_first (pat s pre post : string) : Prop :=
  s = pre +:+ pat +:+ post /\
  forall pre' post', s = pre' +:+ pat +:+ post' ->
    (String.length pre <= String.length pre')%nat.

(** "Single substitution per token": the first occurrence of [pat] gives way
    to [rep] and everything else stays; a string without [pat] stays as it
    is. *)
Inductive replaced_first (pat rep s : string) : string -> Prop :=
| replaced_hit (pre post : string) :
    occurs_first pat s pre post ->
    replaced_first pat rep s (pre +:+ rep +:+ post)
| replaced_miss :
    (forall pre post, s <> pre +:+ pat +:+ post) ->
    replaced_first pat rep s s.

(** ** The animation clock, in the spec's words *)

(** [a mod b], the remainder of flooring division. *)
Definition Qmod (a b : Q) : Q :=
  (a - b * inject_Z (Qfloor (a / b)))%Q.


(** ** Doubles, as the statements name them *)

(** The double that [round64] gives for a rational from 0 up, before the
    test for overflow. *)
Definition rnd (q : Q) : Q :=
  match Qcompare q 0 with
  | Gt => round_pos q
  | _ => 0%Q
  end.

(** A rational with a significand of 53 bits; every finite double is one. *)
Definition dyadic53 (q : Q) : Prop :=
  exists (M g : Z), (q == inject_Z M * 2 ^ g)%Q /\ (Z.abs M < 2 ^ 53)%Z.

(** The distance from 1 to the double before it. *)
Definition ulp_ratio : Q := (2 ^ (-53))%Q.

(** ** The world after a tick *)

(** The world after the clock has written frame [f]. *)
Definition ticked (f : Number) (w : World) : World :=
  {| accessToken := accessToken w; state := with_frame f (state w); trace := trace w |}.

(** ** Sample data *)

Module Sample.

(** An image: it can be mapped, it has no filmstrip. *)
Definition image : EEObject :=
  {| ee_addr := 1; has_getMap := true; has_getFilmstripThumbURL := false |}.

Definition other_image : EEObject :=
  {| ee_addr := 2; has_getMap := true; has_getFilmstripThumbURL := false |}.

Definition collection : EEObject :=
  {| ee_addr := 3; has_getMap := true; has_getFilmstripThumbURL := true |}.

Definition palette : gmap string Val :=
  <["min" := VAtom (ANum 0)]> (<["max" := VAtom (ANum 3000)]> ∅).

(** Two object literals with the same contents. *)
Definition vis_a : VisParams := VisObject {| obj_addr := 10; obj_props := palette |}.
Definition vis_b : VisParams := VisObject {| obj_addr := 11; obj_props := palette |}.

(** Parameters that name the keys of the thumbnail request. *)
Definition vis_clash : VisParams :=
  VisObject {| obj_addr := 12;
               obj_props := <["crs" := VAtom (AStr "EPSG:4326")]>
                              (<["dimensions" := VAtom (ANum 1024)]> palette) |}.

Definition strip (h : Z) : Image :=
  {| img_url := "https://ee/film"; img_width := 256; img_height := h |}.

(** A service that answers every call; the filmstrip is [h] pixels high. *)
Definition service (h : Z) : Env :=
  {| eeApi_initialize := fun _ => None;
     ee_Deserializer_fromJSON := fun _ => Ok (EEObj image);
     ee_ImageCollection := fun _ => Ok (EEObj collection);
     promisifyEEMethod_getMap := fun _ _ =>
       Ok {| mapid_of := Some "m1"; urlFormat_of := Some "https://x/{z}/{x}/{y}.png" |};
     promisifyEEMethod_getFilmstripThumbURL := fun _ _ => Ok "https://ee/film";
     load := fun u _ => Ok {| img_url := u; img_width := 256; img_height := h |};
     createImageBitmap_rejects := fun _ _ _ _ _ => None;
     Date_now := 1234567 |}.


(** The same service, turning every credential down. *)
Definition closed_service : Env :=
  {| eeApi_initialize := fun _ => Some (Error "invalid token");
     ee_Deserializer_fromJSON := ee_Deserializer_fromJSON (service 512);
     ee_ImageCollection := ee_ImageCollection (service 512);
     promisifyEEMethod_getMap := promisifyEEMethod_getMap (service 512);
     promisifyEEMethod_getFilmstripThumbURL :=
       promisifyEEMethod_getFilmstripThumbURL (service 512);
     load := load (service 512);
     createImageBitmap_rejects := createImageBitmap_rejects (service 512);
     Date_now := Date_now (service 512) |}.

(** The same service, with a bitmap decoder that fails on the second
    frame. *)
Definition flaky_service (h : Z) : Env :=
  {| eeApi_initialize := eeApi_initialize (service h);
     ee_Deserializer_fromJSON := ee_Deserializer_fromJSON (service h);
     ee_ImageCollection := ee_ImageCollection (service h);
     promisifyEEMethod_getMap := promisifyEEMethod_getMap (service h);
     promisifyEEMethod_getFilmstripThumbURL :=
       promisifyEEMethod_getFilmstripThumbURL (service h);
     load := load (service h);
     createImageBitmap_rejects := fun _ _ sy _ _ =>
       if Z.eqb sy 256 then Some (Error "decode failed") else None;
     Date_now := Date_now (service h) |}.

Definition fresh : World :=
  {| accessToken := None; state := initializeState; trace := [] |}.

(** A layer that holds [o] and nothing else. *)
Definition holding (o : EEObject) : World :=
  {| accessToken := Some "T1";
     state := with_eeObject (EEObj o) initializeState;
     trace := [] |}.

(** A layer that shows [o] through a resolved descriptor. *)
Definition showing (o : EEObject) : World :=
  {| accessToken := Some "T1";
     state := State.mk (EEObj o) (Some "m0") (Some "https://old/{z}/{x}/{y}")
                       (Some imageTiles) None None;
     trace := [] |}.

(** A layer with the template of the spec's example. *)
Definition tiled : World :=
  {| accessToken := Some "T1";
     state := State.mk (EEObj image) (Some "m1") (Some "https://x/{z}/{x}/{y}.png")
                       (Some imageTiles) None None;
     trace := [] |}.

Definition props_of (o : EEObject) (vis : VisParams) (animate : bool) : Props.t :=
  Props.mk (Some "T1") (EEObj o) vis animate 12.

(** A layer that plays five frames. *)
Definition playing : World :=
  {| accessToken := Some "T1";
     state := State.mk (EEObj collection) (Some "m1") None (Some filmstrip)
                       (Some 5%Q) None;
     trace := [] |}.

Definition unflagged : ChangeFlags := {| dataChanged := false |}.

Definition origin : Tile :=
  {| tile_x := 3; tile_y := 7; tile_z := 2;
     bbox := {| west := 0; north := 1; east := 1; south := 0 |} |}.

End Sample.

(** ** Rendering *)

(** What the tile layer hands to [renderSubLayers] as [data]: nothing yet,
    the array of a tile, or the promise of one (of an array, or of null). *)
Inductive TileContent : Type :=
| NoContent
| Loaded (frames : list Picture)
| Loading (settles_to : option (list Picture)).

(** The [image] of a bitmap layer: a picture, or what a promise will
    deliver. *)
Inductive LayerImage : Type :=
| ImageNow (p : Picture)
| ImageLater (p : option Picture).

(** [new BitmapLayer({...props, image, bounds})], by the two keys that
    [renderSubLayers] sets. *)
Record BitmapLayer : Type := {
  bl_image : LayerImage;
  bl_bounds : list Q
}.

(** [new TileLayer(this.getSubLayerProps({id: mapid}), {..., frame, ...})]:
    the props that the inherited [getSubLayerProps] makes of the id (of a
    type [P] that the layer does not look into), and the frame; the tiling
    knobs are handed over as the props have them. *)
Record TileLayer (P : Type) : Type := {
  tl_props : P;
  tl_frame : Number
}.
Arguments tl_props {P} _.
Arguments tl_frame {P} _.

(** [data[frame]]: an element for a whole [frame] from 0 up to the length,
    [undefined] for every other number. *)
Definition index_frame (frames : list Picture) (frame : Number) : option Picture :=
  match frame with
  | Finite q =>
      if Qeq_bool q (inject_Z (Qfloor q)) && negb (Qfloor q <? 0)%Z
      then frames !! Z.to_nat (Qfloor q)
      else None
  | _ => None
  end.

(** [renderSubLayers(props)] of the tile layer; [frame] is the one that
    [renderLayers] closed over. *)
Definition renderSubLayers (frame : Number) (data : TileContent) (b : BBox)
    : option BitmapLayer :=
  let bounds := [west b; south b; east b; north b] in
  match data with
  | NoContent => None
  | Loaded frames =>
      match index_frame frames frame with
      | Some image => Some {| bl_image := ImageNow image; bl_bounds := bounds |}
      | None => None
      end
  | Loading settles_to =>
      let image :=
        match settles_to with
        | Some result => index_frame result frame
        | None => None
        end in
      Some {| bl_image := ImageLater image; bl_bounds := bounds |}
  end.

(** [renderLayers]: [frame] defaults to 0, and nothing is rendered without a
    [mapid].  [getSubLayerProps] is the method of the base class, applied to
    [{id: mapid}]. *)
Definition renderLayers {P : Type} (getSubLayerProps : string -> P) (st : State.t)
    : option (TileLayer P) :=
  let frame := match State.frame st with Some f => f | None => whole 0 end in
  if str_falsy (State.mapid st) then None
  else
    match State.mapid st with
    | None => None
    | Some mapid => Some {| tl_props := getSubLayerProps mapid; tl_frame := frame |}
    end.

(** ** Further worlds and predicates that the statements name *)

(** The world after [_updateEEObject] has stored [v]. *)
Definition handled (v : EEVal) (w : World) : World :=
  {| accessToken := accessToken w; state := with_eeObject v (state w);
     trace := trace w |}.

(** Two states agree on everything but the handle. *)
Definition same_but_eeObject (s1 s2 : State.t) : Prop :=
  State.mapid s1 = State.mapid s2 /\
  State.urlFormat s1 = State.urlFormat s2 /\
  State.renderMethod s1 = State.renderMethod s2 /\
  State.nFrames s1 = State.nFrames s2 /\
  State.frame s1 = State.frame s2.

(** Two states agree on everything but the frame count. *)
Definition same_but_nFrames (s1 s2 : State.t) : Prop :=
  State.eeObject s1 = State.eeObject s2 /\
  State.mapid s1 = State.mapid s2 /\
  State.urlFormat s1 = State.urlFormat s2 /\
  State.renderMethod s1 = State.renderMethod s2 /\
  State.frame s1 = State.frame s2.

Definition is_getMap_call (e : Event) : bool :=
  match e with CallGetMap _ _ => true | _ => false end.

(** The character that opens a token. *)
Definition left_brace : Ascii.ascii :=
  match "{" with
  | String c _ => c
  | EmptyString => Ascii.zero
  end.

(** No left brace in [s]. *)
Fixpoint brace_free (s : string) : bool :=
  match s with
  | EmptyString => true
  | String c s' => negb (Ascii.eqb c left_brace) && brace_free s'
  end.

(** The world after the calls [calls] and nothing else. *)
Definition called (calls : list Event) (w : World) : World :=
  {| accessToken := accessToken w; state := state w; trace := trace w ++ calls |}.

(** ** Services that fail *)

Module Outage.

(** The thumbnail request is turned down. *)
Definition no_thumbnail : Env :=
  {| eeApi_initialize := eeApi_initialize (Sample.service 512);
     ee_Deserializer_fromJSON := ee_Deserializer_fromJSON (Sample.service 512);
     ee_ImageCollection := ee_ImageCollection (Sample.service 512);
     promisifyEEMethod_getMap := promisifyEEMethod_getMap (Sample.service 512);
     promisifyEEMethod_getFilmstripThumbURL := fun _ _ => Throw (Error "quota exceeded");
     load := load (Sample.service 512);
     createImageBitmap_rejects := createImageBitmap_rejects (Sample.service 512);
     Date_now := Date_now (Sample.service 512) |}.

(** The image behind the thumbnail URL cannot be loaded. *)
Definition no_image : Env :=
  {| eeApi_initialize := eeApi_initialize (Sample.service 512);
     ee_Deserializer_fromJSON := ee_Deserializer_fromJSON (Sample.service 512);
     ee_ImageCollection := ee_ImageCollection (Sample.service 512);
     promisifyEEMethod_getMap := promisifyEEMethod_getMap (Sample.service 512);
     promisifyEEMethod_getFilmstripThumbURL :=
       promisifyEEMethod_getFilmstripThumbURL (Sample.service 512);
     load := fun _ _ => Throw (Error "404");
     createImageBitmap_rejects := createImageBitmap_rejects (Sample.service 512);
     Date_now := Date_now (Sample.service 512) |}.

End Outage.

(** * Properties *)

(** Running a method: unfold the monad down to the world it returns. *)
Ltac run_monad :=
  cbv beta delta [bind ret throw settle emit setState get_state
                  get_accessToken set_accessToken] in *;
  simpl in *.

Lemma str_falsy_of_ne (t : string) : t <> "" -> str_falsy (Some t) = false.
Proof.
  intros H. simpl. destruct (String.eqb_spec t ""); congruence.
Qed.

(** ** Session *)

(** C3. A token equal to the active one makes no call and changes nothing.
    A different (non-empty) token makes one session-establishment call; the
    active-credential marker becomes the new token when the call resolves and
    keeps its previous value, with the error passed on, when it rejects.  In
    every run the marker changes only together with a resolved call. *)
Theorem C3_updateToken_session (env : Env) (props : Props.t) (w : World) :
  (Props.token props = accessToken w ->
     _updateToken env props w = (Ok tt, w)) /\
  (forall t, Props.token props = Some t -> t <> "" -> accessToken w <> Some t ->
     eeApi_initialize env t = None ->
     _updateToken env props w = (Ok tt, established t w)) /\
  (forall t e, Props.token props = Some t -> t <> "" -> accessToken w <> Some t ->
     eeApi_initialize env t = Some e ->
     _updateToken env props w = (Throw e, turned_down t w)) /\
  (accessToken (snd (_updateToken env props w)) <> accessToken w ->
     exists t, Props.token props = Some t /\ eeApi_initialize env t = None /\
               _updateToken env props w = (Ok tt, established t w)).
Proof.
  unfold _updateToken. run_monad.
  destruct (Props.token props) as [t|] eqn:Htok; simpl.
  - destruct (String.eqb_spec t "") as [->|Hne]; simpl.
    + split; [reflexivity|]. split; [congruence|]. split; [congruence|].
      intros H. now destruct H.
    + case_bool_decide as Heq; simpl.
      * split; [reflexivity|]. split; [congruence|]. split; [congruence|].
        intros H. now destruct H.
      * split; [congruence|].
        split; [intros t' [= <-] _ _ ->; reflexivity|].
        split; [intros t' e [= <-] _ _ ->; reflexivity|].
        destruct (eeApi_initialize env t) eqn:Hinit; simpl.
        -- intros H. now destruct H.
        -- intros _. exists t. auto.
  - split; [reflexivity|]. split; [congruence|]. split; [congruence|].
    intros H. now destruct H.
Qed.

(** ** Render descriptor *)

Lemma vis_strict_eq_refl (v : VisParams) : vis_strict_eq v v = true.
Proof. destruct v; simpl; auto using Nat.eqb_refl. Qed.

Lemma guard_open_false props oldProps changeFlags :
  guard_open props oldProps changeFlags ->
  vis_strict_eq (Props.visParams props) (Props.visParams oldProps)
  && negb (dataChanged changeFlags) = false.
Proof.
  intros [-> | ->]; [reflexivity|]. apply andb_false_r.
Qed.

(** C1, as the code has it.  Resolution is skipped, and the world (hence
    mapid, urlFormat and renderMethod) is left as it was, when the new
    visParams is the very same value as the previous one under [===], the
    handle is unchanged and the data-changed flag is not set; it is skipped
    as well when the layer holds no handle.  When visParams is another
    reference or the flag is set, and the layer holds a handle with the
    methods the mode needs, the getMap round trip is made, and its answer is
    stored. *)
Theorem C1_resolution_guard (env : Env) (props oldProps : Props.t)
    (changeFlags : ChangeFlags) (w : World) :
  (vis_strict_eq (Props.visParams props) (Props.visParams oldProps) = true ->
   ee_strict_eq (Props.eeObject props) (Props.eeObject oldProps) = true ->
   dataChanged changeFlags = false ->
     _updateEEVisParams env props oldProps changeFlags w = (Ok tt, w)) /\
  (ee_truthy (State.eeObject (state w)) = false ->
     _updateEEVisParams env props oldProps changeFlags w = (Ok tt, w)) /\
  (guard_open props oldProps changeFlags ->
   ee_getMap (State.eeObject (state w)) = true ->
   (Props.animate props = true -> ee_getFilmstripThumbURL (State.eeObject (state w)) = true) ->
     let o := State.eeObject (state w) in
     let vis := Props.visParams props in
     match promisifyEEMethod_getMap env o vis with
     | Ok m => _updateEEVisParams env props oldProps changeFlags w
               = (Ok tt, resolved o vis m (method_for (Props.animate props)) w)
     | Throw e => _updateEEVisParams env props oldProps changeFlags w
                  = (Throw e, asked_getMap o vis w)
     end).
Proof.
  split; [|split].
  - intros Heq _ Hflag. unfold _updateEEVisParams. rewrite Heq, Hflag. reflexivity.
  - intros Hnone. unfold _updateEEVisParams.
    destruct (_ && _); [reflexivity|]. run_monad. rewrite Hnone. reflexivity.
  - intros Hopen HgetMap Hfilm o vis. subst o vis.
    unfold _updateEEVisParams. rewrite (guard_open_false _ _ _ Hopen).
    run_monad. rewrite HgetMap.
    assert (Htruthy : ee_truthy (State.eeObject (state w)) = true).
    { destruct (State.eeObject (state w)); simpl in *; congruence. }
    rewrite Htruthy. simpl.
    destruct (Props.animate props) eqn:Hanim; simpl.
    + rewrite (Hfilm eq_refl). simpl.
      destruct (promisifyEEMethod_getMap env _ _); reflexivity.
    + destruct (promisifyEEMethod_getMap env _ _); reflexivity.
Qed.

(** C1, as stated, fails in both directions.  With a new object literal
    holding the same parameters, the same handle and no data-changed flag,
    the getMap round trip is made and the descriptor replaced; with a changed
    handle and the same visParams object, a whole update cycle stores the new
    handle, makes no call and keeps the old descriptor. *)
Lemma C1_counterexample :
  (deepEqual Sample.vis_b Sample.vis_a = true /\
   ee_strict_eq (EEObj Sample.image) (EEObj Sample.image) = true /\
   dataChanged Sample.unflagged = false /\
   _updateEEVisParams (Sample.service 512)
     (Sample.props_of Sample.image Sample.vis_b false)
     (Sample.props_of Sample.image Sample.vis_a false)
     Sample.unflagged (Sample.showing Sample.image)
   = (Ok tt,
      {| accessToken := Some "T1";
         state := State.mk (EEObj Sample.image) (Some "m1")
                    (Some "https://x/{z}/{x}/{y}.png") (Some imageTiles) None None;
         trace := [CallGetMap (EEObj Sample.image) Sample.vis_b] |})) /\
  (ee_strict_eq (EEObj Sample.other_image) (EEObj Sample.image) = false /\
   deepEqual Sample.vis_a Sample.vis_a = true /\
   updateState (Sample.service 512)
     (Sample.props_of Sample.other_image Sample.vis_a false)
     (Sample.props_of Sample.image Sample.vis_a false)
     Sample.unflagged (Sample.showing Sample.image)
   = (Ok tt,
      {| accessToken := Some "T1";
         state := State.mk (EEObj Sample.other_image) (Some "m0")
                    (Some "https://old/{z}/{x}/{y}") (Some imageTiles) None None;
         trace := [] |})).
Proof.
  split.
  - split; [vm_compute; reflexivity|].
    split; [reflexivity|]. split; [reflexivity|].
    vm_compute. reflexivity.
  - split; [reflexivity|]. split; [vm_compute; reflexivity|].
    vm_compute. reflexivity.
Qed.




(** ** Tiles without a template *)

(** C8. In tiled mode, a tile asked for while the state holds no URL
    template resolves to null: no error, no call, nothing changed.  The same
    holds for the fetch called directly, and for an empty template. *)
Theorem C8_no_template_no_data (env : Env) (this_props : Props.t) (tile : Tile) (w : World) :
  (State.urlFormat (state w) = None ->
     getImageTileData env tile w = (Ok None, w)) /\
  (State.urlFormat (state w) = None ->
   State.renderMethod (state w) <> Some filmstrip ->
     getTileData env this_props tile w = (Ok None, w)) /\
  (State.urlFormat (state w) = Some "" ->
     getImageTileData env tile w = (Ok None, w)).
Proof.
  assert (Hfalsy : str_falsy (State.urlFormat (state w)) = true ->
                   getImageTileData env tile w = (Ok None, w)).
  { intros H. unfold getImageTileData. run_monad. rewrite H. reflexivity. }
  split; [|split].
  - intros H. apply Hfalsy. rewrite H. reflexivity.
  - intros H Hmode. unfold getTileData. run_monad.
    destruct (State.renderMethod (state w)) as [[|]|]; try congruence.
    + apply Hfalsy. rewrite H. reflexivity.
    + apply Hfalsy. rewrite H. reflexivity.
  - intros H. apply Hfalsy. rewrite H. reflexivity.
Qed.

Lemma C8_no_template_no_data_witness :
  getTileData (Sample.service 512) (Sample.props_of Sample.image Sample.vis_a false)
    Sample.origin (Sample.holding Sample.image)
  = (Ok None, Sample.holding Sample.image).
Proof.
  destruct (C8_no_template_no_data (Sample.service 512)
              (Sample.props_of Sample.image Sample.vis_a false)
              Sample.origin (Sample.holding Sample.image)) as (_ & Hmode & _).
  apply Hmode.
  - reflexivity.
  - simpl. discriminate.
Defined.

(** ** Animation clock *)

(** C9. With [nFrames] unset or zero, [_animate] returns at once: the frame
    is not recomputed and the world, the frame state included, stays as it
    was. *)
Theorem C9_animate_noop (env : Env) (this_props : Props.t) (w : World) :
  (State.nFrames (state w) = None \/
   exists q, State.nFrames (state w) = Some q /\ (q == 0)%Q) ->
  _animate env this_props w = (Ok tt, w).
Proof.
  intros H. unfold _animate. run_monad.
  assert (Hfalsy : num_falsy (State.nFrames (state w)) = true).
  { destruct H as [-> | (q & -> & Hq)]; simpl; [reflexivity|].
    apply Qeq_bool_iff. exact Hq. }
  rewrite Hfalsy. reflexivity.
Qed.

Lemma C9_animate_noop_witness :
  _animate (Sample.service 512) (Sample.props_of Sample.image Sample.vis_a true)
    (Sample.showing Sample.image)
  = (Ok tt, Sample.showing Sample.image).
Proof.
  apply (C9_animate_noop (Sample.service 512)
           (Sample.props_of Sample.image Sample.vis_a true)
           (Sample.showing Sample.image)).
  left. reflexivity.
Defined.

(** ** Filmstrip *)

Lemma Qceiling_int_lt (i : Z) (n : Q) :
  (inject_Z i < n)%Q -> (i < Qceiling n)%Z.
Proof.
  intros H. pose proof (Qle_ceiling n) as Hc.
  rewrite Zlt_Qlt. lra.
Qed.

Lemma Qceiling_int_ge (i : Z) (n : Q) :
  (n <= inject_Z i)%Q -> (Qceiling n <= i)%Z.
Proof.
  intros H. rewrite <- (Qceiling_Z i). apply Qceiling_resp_le. exact H.
Qed.

(** The loop slices frames [i], [i+1], ... below [nFrames], whatever fuel is
    left over. *)
Lemma slice_loop_run (env : Env) (image : Image) (nFrames : Q) :
  forall (fuel : nat) (i : Z) (w : World),
    (Z.to_nat (Qceiling nFrames - i) <= fuel)%nat ->
    slice_loop env fuel image nFrames i w
    = (Ok (slice_outcome env image <$> seqZ i (Qceiling nFrames - i)),
       {| accessToken := accessToken w; state := state w;
          trace := trace w ++ (slice_call image <$> seqZ i (Qceiling nFrames - i)) |}).
Proof.
  induction fuel as [|fuel IH]; intros i w Hfuel; simpl.
  - rewrite seqZ_nil by lia. simpl. rewrite app_nil_r. destruct w; reflexivity.
  - destruct (Qlt_le_dec (inject_Z i) nFrames) as [Hlt|Hge].
    + apply Qceiling_int_lt in Hlt.
      rewrite (seqZ_cons i) by lia.
      unfold createImageBitmap. run_monad.
      rewrite IH by lia. simpl.
      replace (Qceiling nFrames - (i + 1))%Z with (Z.pred (Qceiling nFrames - i)) by lia.
      replace (i + 1)%Z with (Z.succ i) by lia.
      rewrite <- app_assoc. reflexivity.
    + apply Qceiling_int_ge in Hge.
      rewrite seqZ_nil by lia. simpl. rewrite app_nil_r. destruct w; reflexivity.
Qed.

Lemma strip_quotient_le (image : Image) :
  (0 <= img_height image)%Z ->
  (strip_quotient image <= inject_Z (img_height image))%Q.
Proof.
  intros H. unfold strip_quotient, TILE_SIZE.
  assert (Hh : (0 <= inject_Z (img_height image))%Q) by (rewrite Zle_Qle in H; exact H).
  apply Qle_shift_div_r; [reflexivity|].
  change (inject_Z 256) with 256%Q. lra.
Qed.

(** The height of the image is fuel enough. *)
Lemma strip_rounds_fuel (image : Image) :
  (Z.to_nat (strip_rounds image - 0) <= Z.to_nat (img_height image))%nat.
Proof.
  unfold strip_rounds.
  destruct (Z.le_gt_cases 0 (img_height image)) as [Hpos|Hneg].
  - pose proof (Qceiling_int_ge _ _ (strip_quotient_le image Hpos)). lia.
  - assert (Qceiling (strip_quotient image) <= 0)%Z; [|lia].
    apply Qceiling_int_ge. unfold strip_quotient, TILE_SIZE.
    assert (Hh : (inject_Z (img_height image) <= 0)%Q).
    { change 0%Q with (inject_Z 0). rewrite <- Zle_Qle. lia. }
    apply Qle_shift_div_r; [reflexivity|].
    change (inject_Z 256) with 256%Q. change (inject_Z 0) with 0%Q. lra.
Qed.

(** One run of the filmstrip fetch, once the URL and the image have arrived:
    every slice has been requested and [nFrames] recorded, and the result is
    what [Promise.all] makes of the slices. *)
Lemma getFilmstripTileData_run (env : Env) (this_props : Props.t) (tile : Tile)
    (w : World) (url : string) (image : Image) :
  let o := State.eeObject (state w) in
  let args := film_args (Props.visParams this_props) (bbox tile) in
  promisifyEEMethod_getFilmstripThumbURL env o args = Ok url ->
  load env url true = Ok image ->
  getFilmstripTileData env this_props tile w
  = (match all_settled (slice_outcome env image <$> seqZ 0 (strip_rounds image)) with
     | Ok frames => Ok (Some frames)
     | Throw e => Throw e
     end,
     sliced o args url image w).
Proof.
  intros o args Hurl Hload. subst o args.
  unfold getFilmstripTileData, Promise_all. run_monad.
  rewrite Hurl. simpl. rewrite Hload. simpl.
  fold (strip_quotient image).
  rewrite slice_loop_run by apply strip_rounds_fuel.
  simpl. fold (strip_rounds image).
  replace (strip_rounds image - 0)%Z with (strip_rounds image) by lia.
  unfold sliced. rewrite <- !app_assoc. simpl.
  destruct (all_settled _); reflexivity.
Qed.

Lemma all_settled_resolved {A} (l : list A) :
  all_settled (Ok <$> l) = Ok l.
Proof.
  induction l as [|a l IH]; [reflexivity|].
  rewrite fmap_cons. cbn [all_settled]. rewrite IH. reflexivity.
Qed.

Lemma all_settled_rejected {A} (ps : list (Res A)) (e : Exn) :
  Throw e ∈ ps -> exists e', all_settled ps = Throw e'.
Proof.
  induction ps as [|p ps IH]; intros Hin.
  - inversion Hin.
  - destruct p as [a|e0]; simpl.
    + apply elem_of_cons in Hin as [Hhd|Htl]; [discriminate|].
      destruct (IH Htl) as [e' ->]. exists e'. reflexivity.
    + exists e0. reflexivity.
Qed.

Lemma strip_rounds_closed_form (image : Image) :
  strip_rounds image = ((img_height image + 255) / 256)%Z.
Proof.
  unfold strip_rounds, strip_quotient, TILE_SIZE, Qceiling, Qfloor, Qdiv, Qmult, Qinv, Qopp.
  simpl. Z.to_euclidean_division_equations. lia.
Qed.

(** C2, as the code has it.  When the thumbnail URL and the image arrive and
    every slice decodes, the fetch resolves to the frames
    [0 .. rounds-1], each the 256 by 256 window at vertical offset [i * 256],
    where [rounds] is the quotient height/256 rounded up.  For a height
    [256 * N] that is exactly [N] frames; for a height that 256 does not
    divide the fetch still resolves, with one frame more than the whole
    quotient. *)
Theorem C2_filmstrip_frames (env : Env) (this_props : Props.t) (tile : Tile)
    (w : World) (url : string) (image : Image) :
  let o := State.eeObject (state w) in
  let args := film_args (Props.visParams this_props) (bbox tile) in
  promisifyEEMethod_getFilmstripThumbURL env o args = Ok url ->
  load env url true = Ok image ->
  (forall i, createImageBitmap_rejects env image 0%Z (i * TILE_SIZE)%Z TILE_SIZE TILE_SIZE = None) ->
  let frames := frame_of image <$> seqZ 0 (strip_rounds image) in
  getFilmstripTileData env this_props tile w
  = (Ok (Some frames), sliced o args url image w) /\
  length frames = Z.to_nat (strip_rounds image) /\
  (forall i : nat, (Z.of_nat i < strip_rounds image)%Z ->
     frames !! i = Some (Crop image 0%Z (Z.of_nat i * 256)%Z 256%Z 256%Z)) /\
  (forall p, p ∈ frames -> pic_width p = 256%Z /\ pic_height p = 256%Z) /\
  (forall N, img_height image = (256 * N)%Z -> strip_rounds image = N) /\
  ((img_height image mod 256)%Z <> 0%Z ->
     strip_rounds image = (img_height image / 256 + 1)%Z).
Proof.
  intros o args Hurl Hload Hdecode frames.
  split; [|split; [|split; [|split; [|split]]]].
  - rewrite (getFilmstripTileData_run env this_props tile w url image Hurl Hload).
    replace (slice_outcome env image <$> seqZ 0 (strip_rounds image))
      with (Ok <$> frames).
    + rewrite all_settled_resolved. reflexivity.
    + unfold frames. rewrite <- list_fmap_compose. apply list_fmap_ext.
      intros _ i _. simpl. unfold slice_outcome. rewrite Hdecode. reflexivity.
  - unfold frames. rewrite length_fmap, length_seqZ. reflexivity.
  - intros i Hi. unfold frames. rewrite list_lookup_fmap, lookup_seqZ_lt by lia.
    reflexivity.
  - intros p Hp. unfold frames in Hp.
    apply list_elem_of_fmap in Hp as (i & -> & _). split; reflexivity.
  - intros N HN. rewrite strip_rounds_closed_form, HN.
    Z.to_euclidean_division_equations. lia.
  - intros Hrem. rewrite strip_rounds_closed_form.
    Z.to_euclidean_division_equations. lia.
Qed.

Lemma C2_filmstrip_frames_witness :
  getFilmstripTileData (Sample.service 512)
    (Sample.props_of Sample.collection Sample.vis_a true)
    Sample.origin (Sample.holding Sample.collection)
  = (Ok (Some (frame_of (Sample.strip 512) <$> seqZ 0 (strip_rounds (Sample.strip 512)))),
     sliced (EEObj Sample.collection) (film_args Sample.vis_a (bbox Sample.origin))
       "https://ee/film" (Sample.strip 512) (Sample.holding Sample.collection))
  /\ strip_rounds (Sample.strip 512) = 2%Z.
Proof.
  destruct (C2_filmstrip_frames (Sample.service 512)
              (Sample.props_of Sample.collection Sample.vis_a true)
              Sample.origin (Sample.holding Sample.collection)
              "https://ee/film" (Sample.strip 512))
    as (Hrun & _ & _ & _ & Hexact & _).
  - reflexivity.
  - reflexivity.
  - intros i. reflexivity.
  - split; [exact Hrun|]. apply Hexact. reflexivity.
Defined.

(** C2, as stated, fails on its second half: a strip 300 pixels high, which
    256 does not divide, raises nothing; the fetch resolves to two frames and
    records the quotient 300/256. *)
Lemma C2_counterexample :
  (300 mod 256)%Z <> 0%Z /\
  fst (getFilmstripTileData (Sample.service 300)
         (Sample.props_of Sample.collection Sample.vis_a true)
         Sample.origin (Sample.holding Sample.collection))
  = Ok (Some [Crop (Sample.strip 300) 0 0 256 256; Crop (Sample.strip 300) 0 256 256 256]) /\
  State.nFrames (state (snd (getFilmstripTileData (Sample.service 300)
         (Sample.props_of Sample.collection Sample.vis_a true)
         Sample.origin (Sample.holding Sample.collection))))
  = Some (300 # 256)%Q.
Proof.
  split; [discriminate|]. split; vm_compute; reflexivity.
Qed.

(** C10. Once the thumbnail URL and the image have arrived, the world after
    the fetch holds the new [nFrames] whatever the slices settle to; and when
    one of the requested slices rejects, the fetch rejects while the state
    keeps that new [nFrames]. *)
Theorem C10_nFrames_outlives_rejection (env : Env) (this_props : Props.t) (tile : Tile)
    (w : World) (url : string) (image : Image) :
  let o := State.eeObject (state w) in
  let args := film_args (Props.visParams this_props) (bbox tile) in
  promisifyEEMethod_getFilmstripThumbURL env o args = Ok url ->
  load env url true = Ok image ->
  let r := getFilmstripTileData env this_props tile w in
  snd r = sliced o args url image w /\
  State.nFrames (state (snd r)) = Some (strip_quotient image) /\
  (forall i e, (0 <= i < strip_rounds image)%Z ->
     createImageBitmap_rejects env image 0%Z (i * TILE_SIZE)%Z TILE_SIZE TILE_SIZE = Some e ->
     exists e', fst r = Throw e').
Proof.
  intros o args Hurl Hload r. subst r.
  rewrite (getFilmstripTileData_run env this_props tile w url image Hurl Hload).
  simpl. split; [reflexivity|]. split; [reflexivity|].
  intros i e Hi Hrej.
  destruct (all_settled_rejected (slice_outcome env image <$> seqZ 0 (strip_rounds image)) e)
    as [e' ->]; [|exists e'; reflexivity].
  apply list_elem_of_fmap. exists i. split.
  - unfold slice_outcome. rewrite Hrej. reflexivity.
  - apply elem_of_seqZ. lia.
Qed.

Lemma C10_nFrames_outlives_rejection_witness :
  State.nFrames (state (snd (getFilmstripTileData (Sample.flaky_service 512)
         (Sample.props_of Sample.collection Sample.vis_a true)
         Sample.origin (Sample.holding Sample.collection))))
  = Some (strip_quotient (Sample.strip 512))
  /\ exists e', fst (getFilmstripTileData (Sample.flaky_service 512)
         (Sample.props_of Sample.collection Sample.vis_a true)
         Sample.origin (Sample.holding Sample.collection)) = Throw e'.
Proof.
  destruct (C10_nFrames_outlives_rejection (Sample.flaky_service 512)
              (Sample.props_of Sample.collection Sample.vis_a true)
              Sample.origin (Sample.holding Sample.collection)
              "https://ee/film" (Sample.strip 512))
    as (_ & Hstate & Hreject).
  - reflexivity.
  - reflexivity.
  - split; [exact Hstate|].
    apply (Hreject 1%Z (Error "decode failed")).
    + rewrite strip_rounds_closed_form.
      change ((img_height (Sample.strip 512) + 255) / 256)%Z with 2%Z. lia.
    + reflexivity.
Defined.

(** C6. The thumbnail request is made with [film_args]: the visualization
    parameters spread first, then [dimensions], [region] and [crs] set.
    Whatever the parameters hold under these names, the request holds
    [[256, 256]], the non-geodesic EPSG:4326 rectangle of the bounding box and
    ['EPSG:3857']; every other key of a parameter object reaches the request
    with the value the caller gave it, a key the caller did not give is not
    in the request, and parameters that are [null] or [undefined] add no
    key. *)
Theorem C6_film_args_explicit_keys (env : Env) (this_props : Props.t) (tile : Tile)
    (w : World) :
  let vis := Props.visParams this_props in
  let b := bbox tile in
  let args := film_args vis b in
  args !! "dimensions" = Some (VArr [ANum 256; ANum 256]) /\
  args !! "region"
  = Some (VGeometry (Rectangle [west b; south b; east b; north b] "EPSG:4326" false)) /\
  args !! "crs" = Some (VAtom (AStr "EPSG:3857")) /\
  (forall k, k <> "dimensions" -> k <> "region" -> k <> "crs" ->
     args !! k = spread vis !! k) /\
  (forall o k, vis = VisObject o ->
     k <> "dimensions" -> k <> "region" -> k <> "crs" ->
     args !! k = obj_props o !! k) /\
  (forall k, vis = VisNull \/ vis = VisUndefined ->
     k <> "dimensions" -> k <> "region" -> k <> "crs" ->
     args !! k = None) /\
  (exists rest,
     trace (snd (getFilmstripTileData env this_props tile w))
     = (trace w ++ CallGetFilmstripThumbURL (State.eeObject (state w)) args :: rest)%list).
Proof.
  intros vis b args. subst args. unfold film_args.
  split; [|split; [|split; [|split; [|split; [|split]]]]].
  - rewrite lookup_insert_ne by discriminate.
    rewrite lookup_insert_ne by discriminate.
    rewrite lookup_insert_eq. reflexivity.
  - rewrite lookup_insert_ne by discriminate.
    rewrite lookup_insert_eq. reflexivity.
  - rewrite lookup_insert_eq. reflexivity.
  - intros k Hd Hr Hc.
    rewrite !lookup_insert_ne by congruence. reflexivity.
  - intros o k Hvis Hd Hr Hc.
    rewrite !lookup_insert_ne by congruence. rewrite Hvis. reflexivity.
  - intros k Hvis Hd Hr Hc.
    rewrite !lookup_insert_ne by congruence.
    destruct Hvis as [-> | ->]; apply lookup_empty.
  - fold (film_args vis b).
    destruct (promisifyEEMethod_getFilmstripThumbURL env (State.eeObject (state w))
                (film_args vis b)) as [url|e] eqn:Hurl.
    + destruct (load env url true) as [image|e] eqn:Hload.
      * rewrite (getFilmstripTileData_run env this_props tile w url image Hurl Hload).
        simpl. eexists. reflexivity.
      * unfold getFilmstripTileData. run_monad. fold vis b.
        rewrite Hurl. simpl. rewrite Hload. simpl.
        eexists. rewrite <- app_assoc. reflexivity.
    + unfold getFilmstripTileData. run_monad. fold vis b.
      rewrite Hurl. simpl. eexists. reflexivity.
Qed.

Lemma C6_film_args_explicit_keys_witness :
  film_args Sample.vis_clash (bbox Sample.origin) !! "crs"
  = Some (VAtom (AStr "EPSG:3857")) /\
  film_args Sample.vis_clash (bbox Sample.origin) !! "dimensions"
  = Some (VArr [ANum 256; ANum 256]) /\
  film_args Sample.vis_clash (bbox Sample.origin) !! "min"
  = Some (VAtom (ANum 0)) /\
  film_args Sample.vis_clash (bbox Sample.origin) !! "max"
  = Some (VAtom (ANum 3000)) /\
  film_args Sample.vis_clash (bbox Sample.origin) !! "gamma" = None /\
  film_args VisNull (bbox Sample.origin) !! "min" = None.
Proof.
  destruct (C6_film_args_explicit_keys (Sample.service 512)
              (Sample.props_of Sample.collection Sample.vis_clash true)
              Sample.origin (Sample.holding Sample.collection))
    as (Hdim & _ & Hcrs & _ & Hobject & _ & _).
  destruct (C6_film_args_explicit_keys (Sample.service 512)
              (Sample.props_of Sample.collection VisNull true)
              Sample.origin (Sample.holding Sample.collection))
    as (_ & _ & _ & _ & _ & Hnull & _).
  split; [exact Hcrs|]. split; [exact Hdim|].
  split; [|split; [|split]].
  - refine (eq_trans (Hobject _ "min" eq_refl _ _ _) _); try discriminate.
    vm_compute. reflexivity.
  - refine (eq_trans (Hobject _ "max" eq_refl _ _ _) _); try discriminate.
    vm_compute. reflexivity.
  - refine (eq_trans (Hobject _ "gamma" eq_refl _ _ _) _); try discriminate.
    vm_compute. reflexivity.
  - apply Hnull; [left; reflexivity | discriminate ..].
Defined.

(** ** URL template *)

Lemma replace_unfold (pat rep s : string) :
  replace pat rep s
  = if String.prefix pat s then rep +:+ string_drop (String.length pat) s
    else match s with
         | EmptyString => EmptyString
         | String c s' => String c (replace pat rep s')
         end.
Proof. destruct s; reflexivity. Qed.

Lemma append_cons (c : Ascii.ascii) (a b : string) :
  String c a +:+ b = String c (a +:+ b).
Proof. reflexivity. Qed.

Lemma append_nil (b : string) : "" +:+ b = b.
Proof. reflexivity. Qed.

Lemma prefix_app_iff (pat s : string) :
  String.prefix pat s = true <-> exists post, s = pat +:+ post.
Proof.
  revert s. induction pat as [|a pat IH]; intros s.
  - split; [intros _; exists s; reflexivity | intros _; destruct s; reflexivity].
  - destruct s as [|b s]; simpl.
    + split; [discriminate | intros [post H]; discriminate].
    + destruct (Ascii.ascii_dec a b) as [->|Hne].
      * rewrite IH. split; intros [post H]; exists post;
          rewrite append_cons in *; congruence.
      * split; [discriminate | intros [post H]; rewrite append_cons in H; congruence].
Qed.

Lemma string_drop_app (pat post : string) :
  string_drop (String.length pat) (pat +:+ post) = post.
Proof.
  induction pat as [|a pat IH].
  - rewrite append_nil. destruct post; reflexivity.
  - rewrite append_cons. simpl. exact IH.
Qed.

Lemma append_same_length (a1 a2 b1 b2 : string) :
  a1 +:+ b1 = a2 +:+ b2 -> String.length a1 = String.length a2 ->
  a1 = a2 /\ b1 = b2.
Proof.
  revert a2. induction a1 as [|x a1 IH]; intros [|y a2];
    rewrite ?append_cons, ?append_nil; simpl; try discriminate.
  - auto.
  - intros [= -> H] [= Hlen]. destruct (IH a2 H Hlen) as [-> ->]. auto.
Qed.

(** What [replace] computes is the first-occurrence substitution. *)
Lemma replace_first_occurrence (pat rep s : string) :
  replaced_first pat rep s (replace pat rep s).
Proof.
  assert (Hhit : forall s, String.prefix pat s = true ->
            replaced_first pat rep s (rep +:+ string_drop (String.length pat) s)).
  { intros s0 Hpre. apply prefix_app_iff in Hpre as [post ->].
    rewrite string_drop_app.
    apply (replaced_hit pat rep (pat +:+ post) "" post).
    split; [reflexivity|]. intros; simpl; lia. }
  assert (Hhead : forall s, String.prefix pat s = false ->
            forall post, s <> pat +:+ post).
  { intros s0 Hpre post H.
    assert (String.prefix pat s0 = true); [|congruence].
    apply prefix_app_iff. exists post. exact H. }
  induction s as [|c s IH]; rewrite replace_unfold.
  - destruct (String.prefix pat "") eqn:Hpre; [apply Hhit; exact Hpre|].
    apply replaced_miss. intros [|c pre] post H.
    + apply (Hhead _ Hpre post). exact H.
    + rewrite append_cons in H. discriminate.
  - destruct (String.prefix pat (String c s)) eqn:Hpre; [apply Hhit; exact Hpre|].
    remember (replace pat rep s) as r eqn:Hr.
    destruct IH as [pre post [Hs Hmin] | Hnone].
    + rewrite <- append_cons.
      apply (replaced_hit pat rep (String c s) (String c pre) post).
      split; [rewrite append_cons; congruence|].
      intros [|c' pre'] post' H.
      * exfalso. apply (Hhead _ Hpre post'). exact H.
      * rewrite append_cons in H. injection H as _ H.
        specialize (Hmin pre' post' H). simpl. lia.
    + apply replaced_miss.
      intros [|c' pre] post H.
      * apply (Hhead _ Hpre post). exact H.
      * rewrite append_cons in H. injection H as _ H.
        apply (Hnone pre post). exact H.
Qed.

(** The first-occurrence substitution has one outcome. *)
Lemma replaced_first_functional (pat rep s r1 r2 : string) :
  replaced_first pat rep s r1 -> replaced_first pat rep s r2 -> r1 = r2.
Proof.
  intros [pre1 post1 [Hs1 Hmin1] | Hnone1] [pre2 post2 [Hs2 Hmin2] | Hnone2].
  - pose proof (Hmin1 pre2 post2 Hs2). pose proof (Hmin2 pre1 post1 Hs1).
    assert (Hlen : String.length pre1 = String.length pre2) by lia.
    assert (H12 : pre1 +:+ pat +:+ post1 = pre2 +:+ pat +:+ post2) by congruence.
    destruct (append_same_length _ _ _ _ H12 Hlen) as [-> Hrest].
    apply (String.app_inj pat) in Hrest. subst. reflexivity.
  - exfalso. apply (Hnone2 pre1 post1 Hs1).
  - exfalso. apply (Hnone1 pre2 post2 Hs2).
  - reflexivity.
Qed.

(** C7. With a template in the state, the tiled fetch loads one URL: the
    template with the first occurrence of [{x}] replaced by x, then the first
    occurrence of [{y}] by y, then the first occurrence of [{z}] by z, each
    token once and nothing else touched; the tile is the one image that
    comes back.  The template "https://x/{z}/{x}/{y}.png" with x = 3, y = 7,
    z = 2 gives "https://x/2/3/7.png", and a token written twice is
    replaced once. *)
Theorem C7_url_template (env : Env) (tile : Tile) (w : World) (urlFormat : string) :
  State.urlFormat (state w) = Some urlFormat ->
  urlFormat <> "" ->
  (exists s1 s2 url,
     replaced_first "{x}" (to_string (tile_x tile)) urlFormat s1 /\
     replaced_first "{y}" (to_string (tile_y tile)) s1 s2 /\
     replaced_first "{z}" (to_string (tile_z tile)) s2 url /\
     trace (snd (getImageTileData env tile w)) = (trace w ++ [CallLoad url false])%list /\
     fst (getImageTileData env tile w)
     = match load env url false with
       | Ok image => Ok (Some [Whole image])
       | Throw e => Throw e
       end) /\
  image_url "https://x/{z}/{x}/{y}.png" 3 7 2 = "https://x/2/3/7.png" /\
  image_url "{x}/{x}/{y}" 3 7 2 = "3/{x}/7".
Proof.
  intros Hfmt Hne. split; [|split; reflexivity].
  exists (replace "{x}" (to_string (tile_x tile)) urlFormat).
  exists (replace "{y}" (to_string (tile_y tile))
            (replace "{x}" (to_string (tile_x tile)) urlFormat)).
  exists (image_url urlFormat (tile_x tile) (tile_y tile) (tile_z tile)).
  split; [apply replace_first_occurrence|].
  split; [apply replace_first_occurrence|].
  split; [apply replace_first_occurrence|].
  unfold getImageTileData. run_monad. rewrite Hfmt.
  rewrite (str_falsy_of_ne _ Hne). simpl.
  destruct (load env _ false); split; reflexivity.
Qed.

Lemma C7_url_template_witness :
  exists s1 s2 url,
    replaced_first "{x}" "3" "https://x/{z}/{x}/{y}.png" s1 /\
    replaced_first "{y}" "7" s1 s2 /\
    replaced_first "{z}" "2" s2 url /\
    trace (snd (getImageTileData (Sample.service 512) Sample.origin Sample.tiled))
    = [CallLoad url false].
Proof.
  destruct (C7_url_template (Sample.service 512) Sample.origin Sample.tiled
              "https://x/{z}/{x}/{y}.png")
    as [(s1 & s2 & url & H1 & H2 & H3 & Htrace & _) _].
  - reflexivity.
  - discriminate.
  - exists s1, s2, url. auto.
Defined.

(** ** Animation clock: the frame index *)

Section Clock.

Local Open Scope Q_scope.

Lemma js_trunc_nonneg (q : Q) : 0 <= q -> js_trunc q = Qfloor q.
Proof.
  intros H. unfold js_trunc.
  apply Qle_bool_iff in H. rewrite H. reflexivity.
Qed.

Lemma Qdiv_nonneg (a b : Q) : 0 <= a -> 0 < b -> 0 <= a / b.
Proof. intros Ha Hb. apply Qle_shift_div_l; [exact Hb | lra]. Qed.

Lemma Qdiv_pos (a b : Q) : 0 < a -> 0 < b -> 0 < a / b.
Proof. intros Ha Hb. apply Qlt_shift_div_l; [exact Hb | lra]. Qed.

(** On a non-negative dividend the remainder of the language is the
    remainder of flooring division. *)
Lemma js_rem_Qmod (a b : Q) : 0 <= a -> 0 < b -> js_rem a b = Qmod a b.
Proof.
  intros Ha Hb. unfold js_rem, Qmod.
  rewrite (js_trunc_nonneg (a / b)) by (apply Qdiv_nonneg; assumption).
  reflexivity.
Qed.

Lemma Qmod_range (a b : Q) : 0 < b -> 0 <= Qmod a b /\ Qmod a b < b.
Proof.
  intros Hb. unfold Qmod.
  assert (Hq : b * (a / b) == a) by (apply Qmult_div_r; lra).
  pose proof (Qfloor_le (a / b)) as Hlo.
  pose proof (Qlt_floor (a / b)) as Hhi.
  rewrite inject_Z_plus in Hhi. change (inject_Z 1) with 1 in Hhi.
  generalize dependent (a / b). intros q Hq Hlo Hhi.
  generalize dependent (inject_Z (Qfloor q)). intros f Hlo Hhi.
  split; nra.
Qed.

(** *** Powers of two and binades *)

Lemma two_neq_0 : ~ 2 == 0.
Proof. discriminate. Qed.

Lemma pow2_pos (e : Z) : 0 < 2 ^ e.
Proof. apply Qpower_0_lt. reflexivity. Qed.

Lemma pow2_add (a b : Z) : 2 ^ (a + b) == 2 ^ a * 2 ^ b.
Proof. apply Qpower_plus, two_neq_0. Qed.

Lemma pow2_sub (a b : Z) : 2 ^ (a - b) == 2 ^ a / 2 ^ b.
Proof. apply Qpower_minus, two_neq_0. Qed.

Lemma pow2_succ (e : Z) : 2 ^ (e + 1) == 2 * 2 ^ e.
Proof. rewrite pow2_add. change (2 ^ 1) with 2. ring. Qed.

Lemma pow2_le (a b : Z) : (a <= b)%Z -> 2 ^ a <= 2 ^ b.
Proof. intros H. apply Qpower_le_compat_l; [exact H | discriminate]. Qed.

Lemma pow2_lt (a b : Z) : (a < b)%Z -> 2 ^ a < 2 ^ b.
Proof. intros H. apply Qpower_lt_compat_l; [exact H | reflexivity]. Qed.

Lemma pow2_lt_inv (a b : Z) : 2 ^ a < 2 ^ b -> (a < b)%Z.
Proof. intros H. apply (Qpower_lt_compat_l_inv 2); [exact H | reflexivity]. Qed.

Lemma pow2_int (e : Z) : (0 <= e)%Z -> 2 ^ e == inject_Z (2 ^ e).
Proof. intros H. rewrite Zpower_Qpower by exact H. reflexivity. Qed.

Lemma binade_spec (q : Q) : 0 < q -> 2 ^ binade q <= q /\ q < 2 ^ (binade q + 1).
Proof.
  intros Hq. destruct q as [a b]. unfold binade. simpl Qnum. simpl Qden.
  assert (Ha : (0 < a)%Z) by (unfold Qlt in Hq; simpl in Hq; lia).
  set (la := Z.log2 a). set (lb := Z.log2 (Z.pos b)).
  destruct (Z.log2_spec a Ha) as [Ha1 Ha2]. fold la in Ha1, Ha2.
  destruct (Z.log2_spec (Z.pos b) eq_refl) as [Hb1 Hb2]. fold lb in Hb1, Hb2.
  assert (Hla : (0 <= la)%Z) by apply Z.log2_nonneg.
  assert (Hlb : (0 <= lb)%Z) by apply Z.log2_nonneg.
  assert (Hq' : a # b == inject_Z a / inject_Z (Z.pos b)) by apply Qmake_Qdiv.
  assert (Hbpos : 0 < inject_Z (Z.pos b)) by reflexivity.
  assert (Ha1q : 2 ^ la <= inject_Z a).
  { rewrite pow2_int by exact Hla. rewrite <- Zle_Qle. exact Ha1. }
  assert (Ha2q : inject_Z a < 2 ^ (la + 1)).
  { rewrite pow2_int by lia. rewrite <- Zlt_Qlt. replace (la + 1)%Z with (Z.succ la) by lia. exact Ha2. }
  assert (Hb1q : 2 ^ lb <= inject_Z (Z.pos b)).
  { rewrite pow2_int by exact Hlb. rewrite <- Zle_Qle. exact Hb1. }
  assert (Hb2q : inject_Z (Z.pos b) < 2 ^ (lb + 1)).
  { rewrite pow2_int by lia. rewrite <- Zlt_Qlt. replace (lb + 1)%Z with (Z.succ lb) by lia. exact Hb2. }
  assert (Hup : a # b < 2 ^ (la - lb + 1)).
  { rewrite Hq'. apply Qlt_shift_div_r; [exact Hbpos|].
    replace (la - lb + 1)%Z with ((la + 1) - lb)%Z by lia.
    rewrite pow2_sub.
    pose proof (pow2_pos lb). pose proof (pow2_pos (la + 1)).
    apply Qlt_le_trans with (2 ^ (la + 1)); [exact Ha2q|].
    apply Qle_trans with (2 ^ (la + 1) / 2 ^ lb * 2 ^ lb).
    - apply Qle_lteq. right. field. apply Qpower_not_0, two_neq_0.
    - apply Qmult_le_l; [|exact Hb1q].
      apply Qlt_shift_div_l; [assumption|]. lra. }
  assert (Hlow : 2 ^ (la - lb - 1) < a # b).
  { rewrite Hq'. apply Qlt_shift_div_l; [exact Hbpos|].
    replace (la - lb - 1)%Z with (la - (lb + 1))%Z by lia.
    rewrite pow2_sub.
    pose proof (pow2_pos (lb + 1)). pose proof (pow2_pos la).
    apply Qlt_le_trans with (2 ^ la); [|exact Ha1q].
    apply Qlt_le_trans with (2 ^ la / 2 ^ (lb + 1) * 2 ^ (lb + 1)).
    - apply Qmult_lt_l; [|exact Hb2q].
      apply Qlt_shift_div_l; [assumption|]. lra.
    - apply Qle_lteq. right. field. apply Qpower_not_0, two_neq_0. }
  destruct (Qle_bool (2 ^ (la - lb)) (a # b)) eqn:Hcmp.
  - apply Qle_bool_iff in Hcmp. split; assumption.
  - assert (Hlt : a # b < 2 ^ (la - lb)).
    { apply Qnot_le_lt. intros H. apply Qle_bool_iff in H. congruence. }
    split.
    + apply Qlt_le_weak. exact Hlow.
    + replace (la - lb - 1 + 1)%Z with (la - lb)%Z by lia. exact Hlt.
Qed.

Lemma binade_unique (q : Q) (e : Z) :
  2 ^ e <= q -> q < 2 ^ (e + 1) -> binade q = e.
Proof.
  intros Hlo Hhi.
  assert (Hq : 0 < q) by (pose proof (pow2_pos e); lra).
  destruct (binade_spec q Hq) as [Blo Bhi].
  assert (e < binade q + 1)%Z by (apply pow2_lt_inv; lra).
  assert (binade q < e + 1)%Z by (apply pow2_lt_inv; lra).
  lia.
Qed.

Lemma binade_ge (q : Q) (k : Z) : 2 ^ k <= q -> (k <= binade q)%Z.
Proof.
  intros H. assert (Hq : 0 < q) by (pose proof (pow2_pos k); lra).
  destruct (binade_spec q Hq) as [_ Bhi].
  assert (k < binade q + 1)%Z by (apply pow2_lt_inv; lra). lia.
Qed.

Lemma binade_lt (q : Q) (k : Z) : 0 < q -> q < 2 ^ k -> (binade q < k)%Z.
Proof.
  intros Hq H. destruct (binade_spec q Hq) as [Blo _].
  apply pow2_lt_inv. lra.
Qed.

(** *** Rounding to the nearest integer and to the nearest double *)

Lemma rne_cases (q : Q) :
  (rne q = Qfloor q /\ q - inject_Z (Qfloor q) <= 1 # 2)
  \/ (rne q = (Qfloor q + 1)%Z /\ 1 # 2 <= q - inject_Z (Qfloor q)).
Proof.
  unfold rne. destruct (Qcompare_spec (q - inject_Z (Qfloor q)) (1 # 2)) as [H|H|H].
  - destruct (Z.even (Qfloor q)); [left|right]; split; (reflexivity || lra).
  - left. split; [reflexivity | lra].
  - right. split; [reflexivity | lra].
Qed.

Lemma floor_bounds (q : Q) : inject_Z (Qfloor q) <= q /\ q < inject_Z (Qfloor q) + 1.
Proof.
  split; [apply Qfloor_le|].
  pose proof (Qlt_floor q) as H. rewrite inject_Z_plus in H. exact H.
Qed.

Lemma Zlt_Qlt' (a b : Z) : inject_Z a < inject_Z b -> (a < b)%Z.
Proof. rewrite <- Zlt_Qlt. auto. Qed.

Lemma Zle_Qle' (a b : Z) : inject_Z a <= inject_Z b -> (a <= b)%Z.
Proof. rewrite <- Zle_Qle. auto. Qed.

Lemma rne_le_int (q : Q) (k : Z) : q <= inject_Z k -> (rne q <= k)%Z.
Proof.
  intros H. destruct (floor_bounds q) as [F1 F2].
  destruct (rne_cases q) as [[-> _]|[-> Hd]].
  - apply Zle_Qle'. lra.
  - assert (Qfloor q < k)%Z; [|lia]. apply Zlt_Qlt'. lra.
Qed.

Lemma rne_ge_int (q : Q) (k : Z) : inject_Z k <= q -> (k <= rne q)%Z.
Proof.
  intros H. assert (k <= Qfloor q)%Z.
  { rewrite <- (Qfloor_Z k). apply Qfloor_resp_le. exact H. }
  destruct (rne_cases q) as [[-> _]|[-> _]]; lia.
Qed.

Lemma rne_lt_half (q : Q) (k : Z) : q < inject_Z k - (1 # 2) -> (rne q <= k - 1)%Z.
Proof.
  intros H. destruct (floor_bounds q) as [F1 F2].
  destruct (rne_cases q) as [[-> _]|[-> Hd]].
  - assert (Qfloor q < k)%Z; [|lia]. apply Zlt_Qlt'. lra.
  - assert (Qfloor q + 1 < k)%Z; [|lia]. apply Zlt_Qlt'.
    rewrite inject_Z_plus. change (inject_Z 1) with 1. lra.
Qed.

Lemma rne_int (k : Z) : rne (inject_Z k) = k.
Proof.
  apply Z.le_antisymm; [apply rne_le_int | apply rne_ge_int]; lra.
Qed.

Lemma rne_comp (x y : Q) : x == y -> rne x = rne y.
Proof.
  intros H. unfold rne. rewrite (Qfloor_comp _ _ H).
  assert (Hc : (x - inject_Z (Qfloor y) ?= 1 # 2) = (y - inject_Z (Qfloor y) ?= 1 # 2)).
  { apply Qcompare_comp; [rewrite H; reflexivity | reflexivity]. }
  rewrite Hc. reflexivity.
Qed.

Lemma rne_mono (x y : Q) : x <= y -> (rne x <= rne y)%Z.
Proof.
  intros H.
  assert (Hf : (Qfloor x <= Qfloor y)%Z) by (apply Qfloor_resp_le; exact H).
  destruct (floor_bounds x) as [X1 X2]. destruct (floor_bounds y) as [Y1 Y2].
  destruct (Z.eq_dec (Qfloor x) (Qfloor y)) as [Heq|Hne].
  - unfold rne. rewrite <- Heq.
    destruct (Qcompare_spec (x - inject_Z (Qfloor x)) (1 # 2)) as [Hx|Hx|Hx];
    destruct (Qcompare_spec (y - inject_Z (Qfloor x)) (1 # 2)) as [Hy|Hy|Hy];
      try destruct (Z.even (Qfloor x)); try lia; lra.
  - assert (Qfloor x + 1 <= Qfloor y)%Z by lia.
    destruct (rne_cases x) as [[-> _]|[-> _]];
    destruct (rne_cases y) as [[-> _]|[-> _]]; lia.
Qed.

(** round_pos, up to the normal form of the result *)
Lemma round_pos_eq (q : Q) :
  round_pos q == inject_Z (rne (q / 2 ^ fexp (binade q))) * 2 ^ fexp (binade q).
Proof. unfold round_pos. apply Qred_correct. Qed.

Lemma div_pow2_mul (q : Q) (f : Z) : q / 2 ^ f * 2 ^ f == q.
Proof. field. apply Qpower_not_0, two_neq_0. Qed.

Lemma scaled_bounds (q : Q) (e f : Z) :
  2 ^ e <= q -> q < 2 ^ (e + 1) ->
  2 ^ (e - f) <= q / 2 ^ f /\ q / 2 ^ f < 2 ^ (e + 1 - f).
Proof.
  intros Hlo Hhi. pose proof (pow2_pos f) as Hf.
  rewrite !pow2_sub. split.
  - unfold Qdiv. apply Qmult_le_compat_r; [exact Hlo|].
    apply Qlt_le_weak, Qinv_lt_0_compat. exact Hf.
  - unfold Qdiv. apply Qmult_lt_r; [|exact Hhi].
    apply Qinv_lt_0_compat. exact Hf.
Qed.

Lemma round_pos_nonneg (q : Q) : 0 < q -> 0 <= round_pos q.
Proof.
  intros Hq. rewrite round_pos_eq.
  pose proof (pow2_pos (fexp (binade q))) as Hf.
  apply Qmult_le_0_compat; [|lra].
  change 0 with (inject_Z 0). rewrite <- Zle_Qle. apply rne_ge_int.
  change (inject_Z 0) with 0. apply Qle_shift_div_l; [exact Hf | lra].
Qed.

Lemma round_pos_upper (q : Q) : 0 < q -> round_pos q <= 2 ^ (binade q + 1).
Proof.
  intros Hq. destruct (binade_spec q Hq) as [Hlo Hhi].
  set (e := binade q) in *. set (f := fexp e).
  rewrite round_pos_eq. fold e f.
  destruct (scaled_bounds q e f Hlo Hhi) as [Mlo Mhi].
  pose proof (pow2_pos f) as Hf.
  destruct (Z.le_gt_cases 0 (e + 1 - f)%Z) as [Hnormal|Hdeep].
  - assert (Hk : (rne (q / 2 ^ f) <= 2 ^ (e + 1 - f))%Z).
    { apply rne_le_int. rewrite <- pow2_int by exact Hnormal. lra. }
    rewrite Zle_Qle in Hk. rewrite <- pow2_int in Hk by exact Hnormal.
    replace (e + 1)%Z with ((e + 1 - f) + f)%Z by lia. rewrite pow2_add.
    apply Qmult_le_compat_r; [exact Hk | lra].
  - assert (Hsmall : q / 2 ^ f < 1 # 2).
    { apply Qlt_le_trans with (2 ^ (e + 1 - f)); [exact Mhi|].
      change (1 # 2) with (2 ^ (-1)). apply pow2_le. lia. }
    assert (Hz : (rne (q / 2 ^ f) <= 0)%Z).
    { replace 0%Z with (1 - 1)%Z by reflexivity. apply rne_lt_half.
      change (inject_Z 1) with 1. lra. }
    rewrite Zle_Qle in Hz. change (inject_Z 0) with 0 in Hz.
    pose proof (pow2_pos (e + 1)).
    apply Qle_trans with 0; [|lra].
    setoid_replace 0 with (0 * 2 ^ f) using relation Qeq by ring.
    apply Qmult_le_compat_r; [exact Hz | lra].
Qed.

Lemma round_pos_lower (q : Q) :
  0 < q -> (-1074 <= binade q)%Z -> 2 ^ binade q <= round_pos q.
Proof.
  intros Hq Hnormal. destruct (binade_spec q Hq) as [Hlo Hhi].
  set (e := binade q) in *. set (f := fexp e).
  assert (Hfe : (f <= e)%Z) by (unfold f, fexp; lia).
  rewrite round_pos_eq. fold e f.
  destruct (scaled_bounds q e f Hlo Hhi) as [Mlo Mhi].
  pose proof (pow2_pos f) as Hf.
  assert (Hk : (2 ^ (e - f) <= rne (q / 2 ^ f))%Z).
  { apply rne_ge_int. rewrite <- pow2_int by lia. exact Mlo. }
  rewrite Zle_Qle in Hk. rewrite <- pow2_int in Hk by lia.
  replace e with ((e - f) + f)%Z at 1 by lia. rewrite pow2_add.
  apply Qmult_le_compat_r; [exact Hk | lra].
Qed.

Lemma fexp_mono (a b : Z) : (a <= b)%Z -> (fexp a <= fexp b)%Z.
Proof. unfold fexp. lia. Qed.

Lemma round_pos_mono (x y : Q) : 0 < x -> x <= y -> round_pos x <= round_pos y.
Proof.
  intros Hx Hxy. assert (Hy : 0 < y) by lra.
  destruct (binade_spec x Hx) as [Xlo Xhi].
  destruct (binade_spec y Hy) as [Ylo Yhi].
  assert (Hb : (binade x <= binade y)%Z).
  { assert (binade x < binade y + 1)%Z by (apply pow2_lt_inv; lra). lia. }
  destruct (Z.eq_dec (fexp (binade x)) (fexp (binade y))) as [Hf|Hf].
  - rewrite !round_pos_eq, Hf.
    pose proof (pow2_pos (fexp (binade y))) as Hp.
    apply Qmult_le_compat_r; [|lra].
    rewrite <- Zle_Qle. apply rne_mono.
    unfold Qdiv. apply Qmult_le_compat_r; [exact Hxy|].
    apply Qlt_le_weak, Qinv_lt_0_compat. exact Hp.
  - assert (Hlt : (binade x < binade y)%Z).
    { destruct (Z.eq_dec (binade x) (binade y)) as [E|E]; [congruence | lia]. }
    assert (Hny : (-1074 <= binade y)%Z).
    { unfold fexp in Hf. lia. }
    apply Qle_trans with (2 ^ (binade x + 1)); [apply round_pos_upper; exact Hx|].
    apply Qle_trans with (2 ^ binade y); [apply pow2_le; lia|].
    apply round_pos_lower; assumption.
Qed.

(** *** Doubles on their grid: the bounds behind the clock *)

Lemma ulp_ratio_bounds : 0 < ulp_ratio /\ ulp_ratio <= 1 # 2.
Proof. split; [apply pow2_pos | change (1 # 2) with (2 ^ (-1)); apply pow2_le; lia]. Qed.

Lemma inj_mul_pow2_lt (a b : Z) (f : Z) :
  inject_Z a * 2 ^ f < inject_Z b * 2 ^ f -> (a < b)%Z.
Proof.
  intros H. apply Zlt_Qlt'. pose proof (pow2_pos f).
  apply Qmult_lt_r with (2 ^ f); assumption.
Qed.

Lemma inj_mul_pow2_le (a b : Z) (f : Z) :
  inject_Z a * 2 ^ f <= inject_Z b * 2 ^ f -> (a <= b)%Z.
Proof.
  intros H. apply Zle_Qle'. pose proof (pow2_pos f).
  apply Qmult_le_r with (2 ^ f); assumption.
Qed.

Lemma inject_Z_minus (a b : Z) : inject_Z (a - b) == inject_Z a - inject_Z b.
Proof. unfold Z.sub. rewrite inject_Z_plus, inject_Z_opp. reflexivity. Qed.

(** A 53-bit number at or above [2^k] lies on the grid of step [2^(k-52)]. *)
Lemma dyadic53_grid (q : Q) (k : Z) :
  dyadic53 q -> 2 ^ k <= q -> exists M, q == inject_Z M * 2 ^ (k - 52).
Proof.
  intros (M & g & Hq & HM) Hk.
  pose proof (pow2_pos k) as Hpk. pose proof (pow2_pos g) as Hpg.
  assert (HMpos : (0 < M)%Z).
  { apply Zlt_Qlt'. change (inject_Z 0) with 0.
    apply Qmult_lt_r with (2 ^ g); [exact Hpg|]. lra. }
  assert (Hg : (k - 52 <= g)%Z).
  { assert (2 ^ k < 2 ^ (53 + g)); [|apply pow2_lt_inv in H; lia].
    rewrite pow2_add. rewrite (pow2_int 53) by lia.
    apply Qle_lt_trans with (inject_Z M * 2 ^ g); [lra|].
    apply Qmult_lt_r; [exact Hpg|]. rewrite <- Zlt_Qlt. lia. }
  exists (M * 2 ^ (g - (k - 52)))%Z.
  rewrite inject_Z_mult, <- pow2_int by lia.
  rewrite Hq. replace g with ((g - (k - 52)) + (k - 52))%Z at 1 by lia.
  rewrite pow2_add. ring.
Qed.

Lemma quotient_bound (r L : Q) :
  dyadic53 r -> dyadic53 L -> 0 <= r -> r < L -> r <= L * (1 - ulp_ratio).
Proof.
  intros Dr DL Hr HrL. destruct ulp_ratio_bounds as [U0 U1].
  assert (HL : 0 < L) by lra.
  destruct (binade_spec L HL) as [Llo Lhi]. set (k := binade L) in *.
  pose proof (pow2_pos k) as Hpk.
  assert (Hstep : 2 ^ (k - 52) == 2 ^ (k + 1) * ulp_ratio).
  { unfold ulp_ratio. rewrite <- pow2_add. apply Qpower_comp; [reflexivity | lia]. }
  destruct (Qlt_le_dec r (2 ^ k)) as [Hsmall|Hbig].
  - destruct (Qlt_le_dec r (2 ^ (k - 1))) as [Htiny|Hmid].
    + assert (Hhalf : 2 ^ (k - 1) == 2 ^ k * (1 # 2)).
      { change (1 # 2) with (2 ^ (-1)). rewrite <- pow2_add.
        apply Qpower_comp; [reflexivity | lia]. }
      nra.
    + destruct (dyadic53_grid r (k - 1) Dr Hmid) as [Mr HMr].
      replace (k - 1 - 52)%Z with (k - 53)%Z in HMr by lia.
      assert (Hk53 : 2 ^ k == inject_Z (2 ^ 53) * 2 ^ (k - 53)).
      { rewrite <- pow2_int by lia. rewrite <- pow2_add.
        apply Qpower_comp; [reflexivity | lia]. }
      assert (HMr53 : (Mr < 2 ^ 53)%Z).
      { apply (inj_mul_pow2_lt _ _ (k - 53)). rewrite <- HMr, <- Hk53. exact Hsmall. }
      assert (Hle : inject_Z Mr <= inject_Z (2 ^ 53) - 1).
      { change 1 with (inject_Z 1). rewrite <- inject_Z_minus, <- Zle_Qle. lia. }
      assert (Hu : 2 ^ (k - 53) == 2 ^ k * ulp_ratio).
      { unfold ulp_ratio. rewrite <- pow2_add. apply Qpower_comp; [reflexivity | lia]. }
      pose proof (pow2_pos (k - 53)) as Hp53.
      assert (r <= 2 ^ k - 2 ^ (k - 53)).
      { rewrite HMr, Hk53.
        setoid_replace (inject_Z (2 ^ 53) * 2 ^ (k - 53) - 2 ^ (k - 53))
          with ((inject_Z (2 ^ 53) - 1) * 2 ^ (k - 53)) using relation Qeq by ring.
        apply Qmult_le_compat_r; [exact Hle | lra]. }
      nra.
  - destruct (dyadic53_grid r k Dr Hbig) as [Mr HMr].
    destruct (dyadic53_grid L k DL Llo) as [ML HML].
    assert (HM : (Mr < ML)%Z).
    { apply (inj_mul_pow2_lt _ _ (k - 52)). rewrite <- HMr, <- HML. exact HrL. }
    assert (Hle : inject_Z Mr <= inject_Z ML - 1).
    { change 1 with (inject_Z 1). rewrite <- inject_Z_minus, <- Zle_Qle. lia. }
    pose proof (pow2_pos (k - 52)) as Hp52.
    assert (r <= L - 2 ^ (k - 52)).
    { rewrite HMr, HML.
      setoid_replace (inject_Z ML * 2 ^ (k - 52) - 2 ^ (k - 52))
        with ((inject_Z ML - 1) * 2 ^ (k - 52)) using relation Qeq by ring.
      apply Qmult_le_compat_r; [exact Hle | lra]. }
    nra.
Qed.

Lemma phase_bound (q : Q) :
  0 < q -> q <= 1 - ulp_ratio -> round_pos q <= 1 - ulp_ratio.
Proof.
  intros Hq Hle. destruct ulp_ratio_bounds as [U0 U1].
  destruct (binade_spec q Hq) as [Hlo Hhi].
  assert (Hneg : (binade q < 0)%Z).
  { apply binade_lt; [exact Hq|]. change (2 ^ 0) with 1. lra. }
  destruct (Z.eq_dec (binade q) (-1)%Z) as [He|He].
  - rewrite round_pos_eq, He. change (fexp (-1)) with (-53)%Z. fold ulp_ratio.
    assert (Hm : q / ulp_ratio <= inject_Z (2 ^ 53 - 1)).
    { apply Qle_shift_div_r; [exact U0|].
      rewrite inject_Z_minus. change (inject_Z 1) with 1.
      assert (H1 : inject_Z (2 ^ 53) * ulp_ratio == 1) by reflexivity.
      nra. }
    apply rne_le_int in Hm. rewrite Zle_Qle in Hm.
    rewrite inject_Z_minus in Hm. change (inject_Z 1) with 1 in Hm.
    assert (H1 : inject_Z (2 ^ 53) * ulp_ratio == 1) by reflexivity.
    nra.
  - apply Qle_trans with (2 ^ (binade q + 1)); [apply round_pos_upper; exact Hq|].
    apply Qle_trans with (2 ^ (-1)); [apply pow2_le; lia|].
    change (2 ^ (-1)) with (1 # 2). lra.
Qed.

Lemma product_bound (n x : Q) :
  dyadic53 n -> 2 ^ (-1021) <= n -> 0 < x -> x <= n * (1 - ulp_ratio) ->
  round_pos x < n.
Proof.
  intros Dn Hn Hx Hle. destruct ulp_ratio_bounds as [U0 U1].
  assert (Hnpos : 0 < n) by (pose proof (pow2_pos (-1021)); lra).
  destruct (binade_spec n Hnpos) as [Nlo Nhi]. set (k := binade n) in *.
  assert (Hk : (-1021 <= k)%Z) by (apply binade_ge; exact Hn).
  destruct (binade_spec x Hx) as [Xlo Xhi]. set (ex := binade x) in *.
  pose proof (pow2_pos k) as Hpk.
  assert (Hxn : x < n) by nra.
  assert (Hex : (ex <= k)%Z).
  { assert (ex < k + 1)%Z by (apply pow2_lt_inv; lra). lia. }
  destruct (dyadic53_grid n k Dn Nlo) as [M HM].
  pose proof (pow2_pos (k - 52)) as Hp52.
  assert (Hu52 : 2 ^ (k - 52) == 2 * 2 ^ k * ulp_ratio).
  { unfold ulp_ratio. rewrite <- pow2_succ, <- pow2_add.
    apply Qpower_comp; [reflexivity | lia]. }
  destruct (Z.eq_dec ex k) as [Esame|Ediff].
  - (* the product is in the binade of n *)
    rewrite round_pos_eq. fold ex. rewrite Esame.
    replace (fexp k) with (k - 52)%Z by (unfold fexp; lia).
    rewrite Esame in Xlo.
    assert (Hm : x / 2 ^ (k - 52) < inject_Z M - (1 # 2)).
    { apply Qlt_shift_div_r; [exact Hp52|].
      setoid_replace ((inject_Z M - (1 # 2)) * 2 ^ (k - 52))
        with (n - (1 # 2) * 2 ^ (k - 52)) using relation Qeq by (rewrite HM; ring).
      nra. }
    apply rne_lt_half in Hm. rewrite Zle_Qle in Hm.
    rewrite inject_Z_minus in Hm. change (inject_Z 1) with 1 in Hm.
    apply Qle_lt_trans with ((inject_Z M - 1) * 2 ^ (k - 52)).
    + apply Qmult_le_compat_r; [exact Hm | lra].
    + rewrite HM. nra.
  - destruct (Z.eq_dec ex (k - 1)%Z) as [Ebelow|Efar].
    + destruct (Qlt_le_dec (2 ^ k) n) as [Habove|Hpow].
      * apply Qle_lt_trans with (2 ^ (ex + 1)); [apply round_pos_upper; exact Hx|].
        rewrite Ebelow. replace (k - 1 + 1)%Z with k by lia. exact Habove.
      * assert (Hn2 : n == 2 ^ k) by lra.
        rewrite round_pos_eq. fold ex. rewrite Ebelow.
        replace (fexp (k - 1)) with (k - 53)%Z by (unfold fexp; lia).
        pose proof (pow2_pos (k - 53)) as Hp53.
        assert (Hk53 : 2 ^ k == inject_Z (2 ^ 53) * 2 ^ (k - 53)).
        { rewrite <- pow2_int by lia. rewrite <- pow2_add.
          apply Qpower_comp; [reflexivity | lia]. }
        assert (Hu : 2 ^ (k - 53) == 2 ^ k * ulp_ratio).
        { unfold ulp_ratio. rewrite <- pow2_add. apply Qpower_comp; [reflexivity | lia]. }
        assert (Hm : x / 2 ^ (k - 53) <= inject_Z (2 ^ 53 - 1)).
        { apply Qle_shift_div_r; [exact Hp53|].
          rewrite inject_Z_minus. change (inject_Z 1) with 1. nra. }
        apply rne_le_int in Hm. rewrite Zle_Qle in Hm.
        rewrite inject_Z_minus in Hm. change (inject_Z 1) with 1 in Hm.
        apply Qle_lt_trans with ((inject_Z (2 ^ 53) - 1) * 2 ^ (k - 53)).
        -- apply Qmult_le_compat_r; [exact Hm | lra].
        -- nra.
    + apply Qle_lt_trans with (2 ^ (ex + 1)); [apply round_pos_upper; exact Hx|].
      apply Qlt_le_trans with (2 ^ k); [apply pow2_lt; lia | exact Nlo].
Qed.

(** *** Rounding respects equality of rationals *)

Lemma binade_comp (x y : Q) : 0 < x -> x == y -> binade x = binade y.
Proof.
  intros Hx Hxy. symmetry.
  destruct (binade_spec x Hx) as [Hlo Hhi].
  apply binade_unique; rewrite <- Hxy; assumption.
Qed.

Lemma round_pos_comp (x y : Q) : 0 < x -> x == y -> round_pos x = round_pos y.
Proof.
  intros Hx Hxy. unfold round_pos.
  rewrite <- (binade_comp x y Hx Hxy).
  apply Qred_complete.
  rewrite (rne_comp (x / 2 ^ fexp (binade x)) (y / 2 ^ fexp (binade x)));
    [reflexivity|].
  unfold Qdiv. apply Qmult_comp; [exact Hxy | reflexivity].
Qed.

Lemma rnd_comp (x y : Q) : x == y -> rnd x = rnd y.
Proof.
  intros Hxy. unfold rnd.
  assert (Hc : (x ?= 0) = (y ?= 0)) by (rewrite Hxy; reflexivity).
  rewrite <- Hc. destruct (Qcompare_spec x 0) as [H|H|H]; try reflexivity.
  apply round_pos_comp; assumption.
Qed.

Lemma rnd_zero (q : Q) : q == 0 -> rnd q = 0.
Proof.
  intros H. unfold rnd. destruct (Qcompare_spec q 0) as [E|E|E]; try reflexivity; lra.
Qed.

Lemma rnd_pos (q : Q) : 0 < q -> rnd q = round_pos q.
Proof.
  intros H. unfold rnd. destruct (Qcompare_spec q 0) as [E|E|E]; try reflexivity; lra.
Qed.

Lemma rnd_nonneg (q : Q) : 0 <= rnd q.
Proof.
  unfold rnd. destruct (Qcompare_spec q 0) as [E|E|E]; try lra.
  apply round_pos_nonneg. exact E.
Qed.

Lemma rnd_mono (x y : Q) : 0 <= x -> x <= y -> rnd x <= rnd y.
Proof.
  intros Hx Hxy. destruct (Qlt_le_dec 0 x) as [Hpos|Hzero].
  - rewrite !rnd_pos by lra. apply round_pos_mono; assumption.
  - rewrite (rnd_zero x) by lra. apply rnd_nonneg.
Qed.

(** *** Doubles *)

Lemma dyadic53_zero : dyadic53 0.
Proof. exists 0%Z, 0%Z. split; [reflexivity | reflexivity]. Qed.



Lemma round_pos_dyadic (q : Q) : 0 < q -> dyadic53 (round_pos q).
Proof.
  intros Hq. destruct (binade_spec q Hq) as [Hlo Hhi].
  set (e := binade q) in *. set (f := fexp e).
  destruct (scaled_bounds q e f Hlo Hhi) as [Slo Shi].
  pose proof (pow2_pos (e - f)) as Hp.
  assert (HR0 : (0 <= rne (q / 2 ^ f))%Z).
  { apply rne_ge_int. change (inject_Z 0) with 0. lra. }
  assert (HR1 : (rne (q / 2 ^ f) <= 2 ^ 53)%Z).
  { apply rne_le_int. rewrite <- pow2_int by lia.
    apply Qle_trans with (2 ^ (e + 1 - f)); [lra|].
    apply pow2_le. unfold f, fexp. lia. }
  destruct (Z.eq_dec (rne (q / 2 ^ f)) (2 ^ 53)%Z) as [Etop|Etop].
  - exists (2 ^ 52)%Z, (f + 1)%Z. split; [|reflexivity].
    rewrite round_pos_eq. fold e. fold f. rewrite Etop.
    rewrite pow2_succ. 
    change (inject_Z (2 ^ 53)) with (2 * inject_Z (2 ^ 52)). ring.
  - exists (rne (q / 2 ^ f)), f. split; [|lia].
    rewrite round_pos_eq. reflexivity.
Qed.

Lemma rnd_dyadic (q : Q) : dyadic53 (rnd q).
Proof.
  unfold rnd. destruct (Qcompare_spec q 0) as [E|E|E]; try apply dyadic53_zero.
  apply round_pos_dyadic. exact E.
Qed.

(** A double in the normal range is its own rounding. *)
Lemma round_pos_exact (q : Q) :
  dyadic53 q -> 2 ^ (-1022) <= q -> round_pos q == q.
Proof.
  intros Dq Hq. assert (Hpos : 0 < q) by (pose proof (pow2_pos (-1022)); lra).
  destruct (binade_spec q Hpos) as [Hlo Hhi].
  assert (He : (-1022 <= binade q)%Z) by (apply binade_ge; exact Hq).
  destruct (dyadic53_grid q (binade q) Dq Hlo) as [M HM].
  rewrite round_pos_eq.
  replace (fexp (binade q)) with (binade q - 52)%Z by (unfold fexp; lia).
  rewrite (rne_comp _ (inject_Z M)).
  - rewrite rne_int. symmetry. exact HM.
  - rewrite HM at 1. apply Qdiv_mult_l.
    pose proof (pow2_pos (binade q - 52)). lra.
Qed.

(** The remainder of two doubles is a double: [%] never rounds. *)
Lemma Qmod_dyadic (t L : Q) :
  dyadic53 t -> dyadic53 L -> 0 <= t -> 0 < L -> dyadic53 (Qmod t L).
Proof.
  intros (Mt & gt & Ht & HMt) (ML & gL & HL & HML) Ht0 HL0.
  destruct (Qmod_range t L HL0) as [Hr0 HrL].
  assert (HK : (0 <= Qfloor (t / L))%Z).
  { change 0%Z with (Qfloor 0). apply Qfloor_resp_le. apply Qdiv_nonneg; assumption. }
  assert (Hrt : Qmod t L <= t).
  { unfold Qmod. assert (0 <= inject_Z (Qfloor (t / L))).
    { change 0 with (inject_Z 0). rewrite <- Zle_Qle. exact HK. }
    nra. }
  set (K := Qfloor (t / L)) in *.
  set (h := Z.min gt gL).
  assert (Ht' : t == inject_Z (Mt * 2 ^ (gt - h)) * 2 ^ h).
  { rewrite inject_Z_mult, <- pow2_int by lia. rewrite Ht.
    replace gt with ((gt - h) + h)%Z at 1 by lia. rewrite pow2_add. ring. }
  assert (HL' : L == inject_Z (ML * 2 ^ (gL - h)) * 2 ^ h).
  { rewrite inject_Z_mult, <- pow2_int by lia. rewrite HL.
    replace gL with ((gL - h) + h)%Z at 1 by lia. rewrite pow2_add. ring. }
  set (a := (Mt * 2 ^ (gt - h))%Z) in *. set (b := (ML * 2 ^ (gL - h))%Z) in *.
  assert (Hr : Qmod t L == inject_Z (a - b * K) * 2 ^ h).
  { unfold Qmod. fold K. rewrite inject_Z_minus, inject_Z_mult.
    rewrite Ht' at 1. rewrite HL' at 1. ring. }
  exists (a - b * K)%Z, h. split; [exact Hr|].
  assert (Hnn : (0 <= a - b * K)%Z).
  { apply (inj_mul_pow2_le _ _ h). rewrite <- Hr. change (inject_Z 0) with 0. lra. }
  rewrite Z.abs_eq by exact Hnn.
  destruct (Z.le_ge_cases gL gt) as [Hg|Hg].
  - (* the grid of L is the finer one *)
    assert (Hb : b = ML) by (unfold b, h; rewrite Z.min_r by lia;
                             rewrite Z.sub_diag; simpl; lia).
    assert (a - b * K < b)%Z.
    { apply (inj_mul_pow2_lt _ _ h). rewrite <- Hr, <- HL'. exact HrL. }
    lia.
  - assert (Ha : a = Mt) by (unfold a, h; rewrite Z.min_l by lia;
                             rewrite Z.sub_diag; simpl; lia).
    assert (a - b * K <= a)%Z.
    { apply (inj_mul_pow2_le _ _ h). rewrite <- Hr, <- Ht'. exact Hrt. }
    lia.
Qed.

(** *** Rounding to a Number *)

Lemma round64_rnd (q : Q) : 0 <= q -> rnd q < 2 ^ 1024 -> round64 q = Finite (rnd q).
Proof.
  intros Hq Hfin. unfold round64, rnd in *.
  destruct (Qcompare_spec q 0) as [E|E|E]; [reflexivity | lra |].
  destruct (Qle_bool (2 ^ 1024) (round_pos q)) eqn:Hover; [|reflexivity].
  apply Qle_bool_iff in Hover. apply Qle_not_lt in Hover. contradiction.
Qed.

Lemma round64_overflow (q : Q) :
  0 <= q -> ~ rnd q < 2 ^ 1024 -> round64 q = Infinity false.
Proof.
  intros Hq Hfin. unfold round64, rnd in *.
  destruct (Qcompare_spec q 0) as [E|E|E].
  - exfalso. apply Hfin. apply pow2_pos.
  - lra.
  - destruct (Qle_bool (2 ^ 1024) (round_pos q)) eqn:Hover; [reflexivity|].
    exfalso. apply Hfin. apply Qnot_le_lt. intros H.
    apply Qle_bool_iff in H. congruence.
Qed.

Lemma round64_Finite_inv (q r : Q) :
  round64 q = Finite r -> 0 <= q -> r = rnd q /\ r < 2 ^ 1024.
Proof.
  intros H Hq. destruct (Qlt_le_dec (rnd q) (2 ^ 1024)) as [Hfin|Hover].
  - rewrite (round64_rnd q Hq Hfin) in H. injection H as <-. auto.
  - rewrite (round64_overflow q Hq) in H; [discriminate|]. lra.
Qed.

Lemma rnd_below (q : Q) (k : Z) : 0 <= q -> q < 2 ^ k -> rnd q <= 2 ^ k.
Proof.
  intros Hq Hk. destruct (Qlt_le_dec 0 q) as [Hpos|Hzero].
  - rewrite rnd_pos by exact Hpos.
    apply Qle_trans with (2 ^ (binade q + 1)); [apply round_pos_upper; exact Hpos|].
    apply pow2_le. pose proof (binade_lt q k Hpos Hk). lia.
  - rewrite rnd_zero by lra. apply Qlt_le_weak, pow2_pos.
Qed.

Lemma Qeq_bool_false (q : Q) : ~ q == 0 -> Qeq_bool q 0 = false.
Proof.
  intros H. destruct (Qeq_bool q 0) eqn:E; [|reflexivity].
  apply Qeq_bool_iff in E. contradiction.
Qed.

Lemma Qred_zero (q : Q) : q == 0 -> Qred q = 0.
Proof. intros H. change 0 with (Qred 0). apply Qred_complete. exact H. Qed.

(** *** The arithmetic on known values

    The decimal 0.1 and the quotient 5/12 as doubles; ties go to the even
    neighbour, also among the subnormal numbers and at the largest double;
    division by zero, the sign of a remainder, and the cases that give
    NaN. *)
Lemma binary64_examples :
  round64 (1 # 10) = Finite (3602879701896397 # 36028797018963968) /\
  round64 (- (1 # 10)) = Finite (- 3602879701896397 # 36028797018963968) /\
  num_div (Finite 5) (Finite 12) = Finite (7505999378950827 # 18014398509481984) /\
  round64 (2 ^ 53 + 1) = Finite (2 ^ 53) /\
  round64 (2 ^ 53 + 3) = Finite (2 ^ 53 + 4) /\
  round64 (2 ^ (-1075)) = Finite 0 /\
  round64 (3 * 2 ^ (-1075)) = Finite (2 ^ (-1073)) /\
  round64 (2 ^ 1024 - 2 ^ 970 - 1) = Finite (2 ^ 1024 - 2 ^ 971) /\
  round64 (2 ^ 1024 - 2 ^ 970) = Infinity false /\
  round64 (- 2 ^ 1024) = Infinity true /\
  num_div (Finite 1) (Finite 0) = Infinity false /\
  num_div (Finite (-1)) (Finite 0) = Infinity true /\
  num_div (Finite 0) (Finite 0) = NaN /\
  num_div (Finite 1) (Infinity true) = Finite 0 /\
  num_rem (Finite (-7)) (Finite 3) = Finite (-1) /\
  num_rem (Finite 7) (Finite (-3)) = Finite 1 /\
  num_rem (Finite 7) (Finite 0) = NaN /\
  num_rem (Finite 7) (Infinity false) = Finite 7 /\
  num_rem (Infinity false) (Finite 3) = NaN /\
  num_mul (Finite 0) (Infinity false) = NaN /\
  num_mul (Finite (-2)) (Infinity false) = Infinity true /\
  num_mul (round64 (1 # 10)) (Finite 3) = Finite (1351079888211149 # 4503599627370496) /\
  Math_floor (Finite (- (1 # 2))) = whole (-1) /\
  Math_floor NaN = NaN /\
  frame_at (Finite (5 # 4)) (Finite 5) (Finite 12) = whole 4 /\
  frame_at (Finite (5 # 4)) (Finite 5) (Finite 0) = whole 0 /\
  frame_at (Finite (5 # 4)) (Finite (2 ^ (-1074))) (Finite 4) = NaN.
Proof. repeat (split; [vm_compute; reflexivity|]). vm_compute. reflexivity. Qed.

(** *** The arithmetic of the clock *)

Lemma Qneg_nonneg (q : Q) : 0 <= q -> Qneg q = false.
Proof. intros H. unfold Qneg. apply Qle_bool_iff in H. rewrite H. reflexivity. Qed.

Lemma round64_zero (q : Q) : q == 0 -> round64 q = Finite 0.
Proof.
  intros H. rewrite round64_rnd; rewrite ?(rnd_zero q H); try reflexivity; try lra.
Qed.

(** [loopTime] for a count from 1/256 up and a finite speed from 0 up: a
    positive double, or [Infinity]. *)
Lemma loopTime_cases (n s : Q) :
  2 ^ (-8) <= n -> 0 <= s -> s < 2 ^ 1024 ->
  num_div (Finite n) (Finite s) = Infinity false
  \/ exists L, num_div (Finite n) (Finite s) = Finite L /\ 0 < L /\ dyadic53 L.
Proof.
  intros Hn Hs0 Hs1. pose proof (pow2_pos (-8)) as Hp8.
  unfold num_div. destruct (Qeq_bool s 0) eqn:Es.
  - left. rewrite Qeq_bool_false by lra. rewrite Qneg_nonneg by lra. reflexivity.
  - assert (Hs : 0 < s).
    { destruct (Qlt_le_dec 0 s) as [H|H]; [exact H|].
      assert (E : s == 0) by lra. apply Qeq_bool_iff in E. congruence. }
    assert (Hq : 0 < n / s) by (apply Qdiv_pos; lra).
    destruct (Qlt_le_dec (rnd (n / s)) (2 ^ 1024)) as [Hfin|Hover].
    + right. exists (rnd (n / s)). split; [apply round64_rnd; lra|].
      split; [|apply rnd_dyadic].
      rewrite rnd_pos by exact Hq.
      apply Qlt_le_trans with (2 ^ binade (n / s)); [apply pow2_pos|].
      apply round_pos_lower; [exact Hq|].
      apply Z.le_trans with (-1032)%Z; [lia|]. apply binade_ge.
      apply Qle_shift_div_l; [exact Hs|].
      apply Qle_trans with (2 ^ (-1032) * 2 ^ 1024).
      * apply Qmult_le_l; [apply pow2_pos | lra].
      * rewrite <- pow2_add. exact Hn.
    + left. apply round64_overflow; lra.
Qed.

Lemma top_above_one : 1 < 2 ^ 1024.
Proof. change 1 with (2 ^ 0). apply pow2_lt. lia. Qed.

(** What the clock stores when [loopTime] is a positive number [L]: the
    quotient and the product are rounded, the remainder is not. *)
Lemma clock_value (t L n : Q) :
  0 < L -> 0 <= t -> dyadic53 n -> 2 ^ (-8) <= n -> n < 2 ^ 1024 ->
  Math_floor (num_mul (num_div (num_rem (Finite t) (Finite L)) (Finite L)) (Finite n))
  = Finite (inject_Z (Qfloor (rnd (rnd (Qmod t L / L) * n)))).
Proof.
  intros HL Ht Dn Hn Hfin. pose proof (pow2_pos (-8)) as Hp8.
  pose proof top_above_one as Htop.
  destruct (Qmod_range t L HL) as [Hr0 HrL].
  assert (Hr : Qred (js_rem t L) == Qmod t L).
  { rewrite Qred_correct, js_rem_Qmod by assumption. reflexivity. }
  assert (Hp0 : 0 <= Qmod t L / L) by (apply Qdiv_nonneg; assumption).
  assert (Hp1 : Qmod t L / L < 1) by (apply Qlt_shift_div_r; lra).
  assert (Hphase : rnd (Qmod t L / L) <= 1).
  { change 1 with (2 ^ 0). apply rnd_below; [exact Hp0 | exact Hp1]. }
  pose proof (rnd_nonneg (Qmod t L / L)) as Hphase0.
  unfold num_rem. rewrite Qeq_bool_false by lra.
  unfold num_div. rewrite Qeq_bool_false by lra.
  rewrite (round64_rnd (Qred (js_rem t L) / L)).
  - rewrite (rnd_comp (Qred (js_rem t L) / L) (Qmod t L / L))
      by (rewrite Hr; reflexivity).
    unfold num_mul. rewrite round64_rnd; [reflexivity | nra |].
    apply Qle_lt_trans with (rnd n); [apply rnd_mono; nra|].
    rewrite rnd_pos by lra. rewrite round_pos_exact; [exact Hfin | exact Dn |].
    apply Qle_trans with (2 ^ (-8)); [apply pow2_le; lia | exact Hn].
  - rewrite Hr. exact Hp0.
  - rewrite (rnd_comp (Qred (js_rem t L) / L) (Qmod t L / L))
      by (rewrite Hr; reflexivity).
    lra.
Qed.

(** When [loopTime] is [Infinity] the clock stores 0. *)
Lemma clock_unbounded (t n : Q) (sign : bool) :
  Math_floor (num_mul (num_div (num_rem (Finite t) (Infinity sign)) (Infinity sign))
                (Finite n))
  = Finite 0.
Proof.
  unfold num_rem, num_div, num_mul. rewrite round64_zero by ring. reflexivity.
Qed.

(** The stored index is a whole number from 0 up, below the count. *)
Lemma clock_range (t L n : Q) :
  dyadic53 t -> dyadic53 L -> dyadic53 n ->
  0 <= t -> 0 < L -> 2 ^ (-8) <= n ->
  (0 <= Qfloor (rnd (rnd (Qmod t L / L) * n)))%Z
  /\ inject_Z (Qfloor (rnd (rnd (Qmod t L / L) * n))) < n.
Proof.
  intros Dt DL Dn Ht HL Hn. pose proof (pow2_pos (-8)) as Hp8.
  destruct ulp_ratio_bounds as [U0 U1].
  destruct (Qmod_range t L HL) as [Hr0 HrL].
  pose proof (Qmod_dyadic t L Dt DL Ht HL) as Dr.
  pose proof (quotient_bound (Qmod t L) L Dr DL Hr0 HrL) as Hq.
  assert (Hp0 : 0 <= Qmod t L / L) by (apply Qdiv_nonneg; assumption).
  assert (Hp1 : Qmod t L / L <= 1 - ulp_ratio).
  { apply Qle_shift_div_r; [exact HL|]. lra. }
  assert (Hphase : rnd (Qmod t L / L) <= 1 - ulp_ratio).
  { destruct (Qlt_le_dec 0 (Qmod t L / L)) as [Hpos|Hzero].
    - rewrite rnd_pos by exact Hpos. apply phase_bound; assumption.
    - rewrite rnd_zero by lra. lra. }
  pose proof (rnd_nonneg (Qmod t L / L)) as Hphase0.
  set (p := rnd (Qmod t L / L)) in *.
  assert (Hprod : rnd (p * n) < n).
  { destruct (Qlt_le_dec 0 (p * n)) as [Hpos|Hzero].
    - rewrite rnd_pos by exact Hpos. apply product_bound.
      + exact Dn.
      + apply Qle_trans with (2 ^ (-8)); [apply pow2_le; lia | exact Hn].
      + exact Hpos.
      + nra.
    - rewrite rnd_zero by nra. lra. }
  pose proof (rnd_nonneg (p * n)) as Hprod0.
  split.
  - change 0%Z with (Qfloor 0). apply Qfloor_resp_le. exact Hprod0.
  - apply Qle_lt_trans with (rnd (p * n)); [apply Qfloor_le | exact Hprod].
Qed.



(** The seconds of a millisecond clock within the range of [Date]. *)
Lemma timestamp_double (ms : Z) :
  (0 <= ms <= 8640000000000000)%Z ->
  exists t, num_div (round64 (inject_Z ms)) (Finite 1000) = Finite t
            /\ 0 <= t /\ dyadic53 t.
Proof.
  intros Hms.
  assert (H0 : 0 <= inject_Z ms).
  { change 0 with (inject_Z 0). rewrite <- Zle_Qle. lia. }
  assert (H1 : inject_Z ms < 2 ^ 53).
  { rewrite (pow2_int 53) by lia. rewrite <- Zlt_Qlt. 
    change (2 ^ 53)%Z with 9007199254740992%Z. lia. }
  pose proof (rnd_below _ 53 H0 H1) as Ha.
  pose proof (rnd_nonneg (inject_Z ms)) as Ha0.
  assert (Htop : 2 ^ 53 < 2 ^ 1024) by (apply pow2_lt; lia).
  rewrite (round64_rnd _ H0) by lra.
  unfold num_div. change (Qeq_bool 1000 0) with false.
  set (a := rnd (inject_Z ms)) in *.
  assert (Hq0 : 0 <= a / 1000) by (apply Qdiv_nonneg; [exact Ha0 | reflexivity]).
  assert (Hq1 : a / 1000 < 2 ^ 54).
  { apply Qlt_shift_div_r; [reflexivity|].
    assert (2 ^ 53 < 2 ^ 54) by (apply pow2_lt; lia).
    pose proof (pow2_pos 54). nra. }
  pose proof (rnd_below _ 54 Hq0 Hq1) as Hb.
  assert (Htop' : 2 ^ 54 < 2 ^ 1024) by (apply pow2_lt; lia).
  exists (rnd (a / 1000)). split; [apply round64_rnd; lra|].
  split; [apply rnd_nonneg | apply rnd_dyadic].
Qed.

(** A double in the normal range rounds to itself. *)
Lemma round64_exact (q : Q) :
  dyadic53 q -> 2 ^ (-1022) <= q -> q < 2 ^ 1024 ->
  exists n, round64 q = Finite n /\ n == q /\ dyadic53 n.
Proof.
  intros Dq Hlo Hhi. pose proof (pow2_pos (-1022)) as Hp.
  pose proof (round_pos_exact q Dq Hlo) as Hex.
  exists (rnd q). rewrite rnd_pos by lra. split; [|split].
  - rewrite <- (rnd_pos q) by lra. apply round64_rnd; [lra|].
    rewrite rnd_pos by lra. rewrite Hex. exact Hhi.
  - exact Hex.
  - apply round_pos_dyadic. lra.
Qed.


(** *** The stored frame *)

(** For a time, a count and a speed that are doubles from 0 up, the count
    at least 1/256: the stored frame is a whole number from 0 up, below the
    count. *)
Lemma frame_at_range (t n s : Q) :
  dyadic53 t -> 0 <= t ->
  dyadic53 n -> 2 ^ (-8) <= n -> n < 2 ^ 1024 ->
  0 <= s -> s < 2 ^ 1024 ->
  exists f, frame_at (Finite t) (Finite n) (Finite s) = whole f
            /\ (0 <= f)%Z /\ inject_Z f < n.
Proof.
  intros Dt Ht Dn Hn Hfin Hs0 Hs1. unfold frame_at.
  destruct (loopTime_cases n s Hn Hs0 Hs1) as [->|(L & -> & HL & DL)].
  - rewrite clock_unbounded. exists 0%Z. split; [reflexivity|].
    split; [lia|]. pose proof (pow2_pos (-8)). change (inject_Z 0) with 0. lra.
  - rewrite clock_value by assumption.
    destruct (clock_range t L n Dt DL Dn Ht HL Hn) as [Hf0 Hf1].
    eexists. split; [reflexivity|]. split; assumption.
Qed.

Lemma _animate_run (env : Env) (this_props : Props.t) (w : World) (nFrames : Q) :
  State.nFrames (state w) = Some nFrames -> ~ nFrames == 0 ->
  _animate env this_props w
  = (Ok tt,
     ticked (frame_at (num_div (round64 (inject_Z (Date_now env))) (Finite 1000))
               (round64 nFrames) (round64 (Props.animationSpeed this_props))) w).
Proof.
  intros Hstate Hnz. unfold _animate, bind, get_state, setState, ret.
  rewrite Hstate. unfold num_falsy. rewrite (Qeq_bool_false nFrames Hnz).
  reflexivity.
Qed.




End Clock.

(** ** A first update cycle, then a tile *)

(** A fresh layer given a token, an image and parameters: one session call,
    one getMap round trip, the descriptor stored, no frame written. *)
Example first_cycle_resolves :
  updateState (Sample.service 512)
    (Sample.props_of Sample.image Sample.vis_a false)
    (Props.mk None EEUndefined VisUndefined false 12)
    Sample.unflagged Sample.fresh
  = (Ok tt,
     {| accessToken := Some "T1";
        state := State.mk (EEObj Sample.image) (Some "m1")
                   (Some "https://x/{z}/{x}/{y}.png") (Some imageTiles) None None;
        trace := [CallInitialize "T1"; CallGetMap (EEObj Sample.image) Sample.vis_a] |}).
Proof. vm_compute. reflexivity. Qed.

(** The tile (3, 7, 2) of that layer is the one image behind the substituted
    URL. *)
Example tile_after_first_cycle :
  fst (getTileData (Sample.service 512)
         (Sample.props_of Sample.image Sample.vis_a false) Sample.origin Sample.tiled)
  = Ok (Some [Whole {| img_url := "https://x/2/3/7.png"; img_width := 256;
                       img_height := 512 |}]).
Proof. vm_compute. reflexivity. Qed.

(** ** Sample runs of the session and of the guard *)

Lemma C3_updateToken_session_witness :
  _updateToken (Sample.service 512)
    (Sample.props_of Sample.image Sample.vis_a false) Sample.fresh
  = (Ok tt, established "T1" Sample.fresh) /\
  _updateToken Sample.closed_service
    (Sample.props_of Sample.image Sample.vis_a false) Sample.fresh
  = (Throw (Error "invalid token"), turned_down "T1" Sample.fresh) /\
  _updateToken Sample.closed_service
    (Sample.props_of Sample.image Sample.vis_a false) (Sample.holding Sample.image)
  = (Ok tt, Sample.holding Sample.image).
Proof.
  destruct (C3_updateToken_session (Sample.service 512)
              (Sample.props_of Sample.image Sample.vis_a false) Sample.fresh)
    as (_ & Hresolved & _ & _).
  destruct (C3_updateToken_session Sample.closed_service
              (Sample.props_of Sample.image Sample.vis_a false) Sample.fresh)
    as (_ & _ & Hrejected & _).
  destruct (C3_updateToken_session Sample.closed_service
              (Sample.props_of Sample.image Sample.vis_a false)
              (Sample.holding Sample.image))
    as (Hsame & _ & _ & _).
  split; [|split].
  - apply Hresolved; [reflexivity | discriminate | discriminate | reflexivity].
  - apply Hrejected; [reflexivity | discriminate | discriminate | reflexivity].
  - apply Hsame. reflexivity.
Defined.

Lemma C1_resolution_guard_witness :
  _updateEEVisParams (Sample.service 512)
    (Sample.props_of Sample.image Sample.vis_a true)
    (Sample.props_of Sample.image Sample.vis_a false)
    Sample.unflagged (Sample.showing Sample.image)
  = (Ok tt, Sample.showing Sample.image) /\
  _updateEEVisParams (Sample.service 512)
    (Sample.props_of Sample.image Sample.vis_b false)
    (Sample.props_of Sample.image Sample.vis_a false)
    Sample.unflagged (Sample.showing Sample.image)
  = (Ok tt,
     resolved (EEObj Sample.image) Sample.vis_b
       {| mapid_of := Some "m1"; urlFormat_of := Some "https://x/{z}/{x}/{y}.png" |}
       imageTiles (Sample.showing Sample.image)).
Proof.
  destruct (C1_resolution_guard (Sample.service 512)
              (Sample.props_of Sample.image Sample.vis_a true)
              (Sample.props_of Sample.image Sample.vis_a false)
              Sample.unflagged (Sample.showing Sample.image))
    as (Hskip & _ & _).
  destruct (C1_resolution_guard (Sample.service 512)
              (Sample.props_of Sample.image Sample.vis_b false)
              (Sample.props_of Sample.image Sample.vis_a false)
              Sample.unflagged (Sample.showing Sample.image))
    as (_ & _ & Hrun).
  split.
  - apply Hskip; reflexivity.
  - apply Hrun.
    + left. reflexivity.
    + reflexivity.
    + discriminate.
Defined.


(** * Further properties of the layer *)

(** ** What each step of an update can do to the world *)

Lemma _updateToken_cases (env : Env) (props : Props.t) (w : World) :
  _updateToken env props w = (Ok tt, w)
  /\ (str_falsy (Props.token props) = true \/ Props.token props = accessToken w)
  \/ (exists t, Props.token props = Some t /\ t <> "" /\
        eeApi_initialize env t = None /\
        _updateToken env props w = (Ok tt, established t w))
  \/ (exists t e, Props.token props = Some t /\ t <> "" /\
        eeApi_initialize env t = Some e /\
        _updateToken env props w = (Throw e, turned_down t w)).
Proof.
  unfold _updateToken. run_monad.
  destruct (Props.token props) as [t|] eqn:Htok; simpl; [|left; auto].
  destruct (String.eqb_spec t "") as [->|Hne]; simpl; [left; auto|].
  case_bool_decide as Heq; simpl; [left; auto|].
  destruct (eeApi_initialize env t) as [e|] eqn:Hinit; simpl.
  - right. right. exists t, e. auto.
  - right. left. exists t. auto.
Qed.

Lemma _updateEEObject_cases (env : Env) (props oldProps : Props.t) (w : World) :
  _updateEEObject env props oldProps w = (Ok tt, w)
  \/ (exists v, _updateEEObject env props oldProps w = (Ok tt, handled v w))
  \/ (exists e, _updateEEObject env props oldProps w = (Throw e, w)).
Proof.
  unfold _updateEEObject.
  destruct (ee_strict_eq _ _); [left; reflexivity|]. right.
  run_monad. unfold handled.
  repeat case_match; simplify_eq/=;
    first [ left; eexists; reflexivity | right; eexists; reflexivity ].
Qed.

Lemma _updateEEVisParams_cases (env : Env) (props oldProps : Props.t)
    (changeFlags : ChangeFlags) (w : World) :
  let o := State.eeObject (state w) in
  let vis := Props.visParams props in
  _updateEEVisParams env props oldProps changeFlags w = (Ok tt, w)
  \/ (exists e, _updateEEVisParams env props oldProps changeFlags w = (Throw e, w))
  \/ (exists m, promisifyEEMethod_getMap env o vis = Ok m /\
        _updateEEVisParams env props oldProps changeFlags w
        = (Ok tt, resolved o vis m (method_for (Props.animate props)) w))
  \/ (exists e, _updateEEVisParams env props oldProps changeFlags w
                = (Throw e, asked_getMap o vis w)).
Proof.
  intros o vis. subst o vis. unfold _updateEEVisParams.
  destruct (_ && _); [left; reflexivity|].
  run_monad.
  destruct (ee_truthy (State.eeObject (state w))); simpl; [|left; reflexivity].
  destruct (ee_getMap (State.eeObject (state w))); simpl;
    [|right; left; eexists; reflexivity].
  destruct (Props.animate props); simpl.
  - destruct (ee_getFilmstripThumbURL (State.eeObject (state w))); simpl;
      [|right; left; eexists; reflexivity].
    destruct (promisifyEEMethod_getMap env _ _) as [m|e] eqn:Hmap; simpl.
    + right. right. left. exists m. auto.
    + right. right. right. exists e. reflexivity.
  - destruct (promisifyEEMethod_getMap env _ _) as [m|e] eqn:Hmap; simpl.
    + right. right. left. exists m. auto.
    + right. right. right. exists e. reflexivity.
Qed.

Lemma _animate_cases (env : Env) (this_props : Props.t) (w : World) :
  _animate env this_props w = (Ok tt, w)
  \/ exists f, _animate env this_props w = (Ok tt, ticked f w).
Proof.
  unfold _animate. run_monad.
  destruct (State.nFrames (state w)) as [n|]; simpl; [|left; reflexivity].
  destruct (Qeq_bool n 0); [left; reflexivity|].
  right. eexists. reflexivity.
Qed.

(** ** Object handle *)

(** X1. Normalising the handle stays inside the layer: it makes no outgoing
    call, leaves the active token alone and changes no field of the state
    but [eeObject]; when it fails, nothing at all has changed. *)
Theorem X1_updateEEObject_frame (env : Env) (props oldProps : Props.t) (w : World) :
  let r := _updateEEObject env props oldProps w in
  trace (snd r) = trace w /\
  accessToken (snd r) = accessToken w /\
  same_but_eeObject (state (snd r)) (state w) /\
  (forall e, fst r = Throw e -> snd r = w).
Proof.
  intros r. subst r. unfold same_but_eeObject.
  destruct (_updateEEObject_cases env props oldProps w) as [H|[[v H]|[e H]]];
    rewrite H; simpl; repeat split; auto; discriminate.
Qed.

(** X2. An empty array as [eeObject] (a change from the previous prop) is
    stored as [null].  Without [animate] that is all that happens; with
    [animate] the array first goes through [ee.ImageCollection], and a
    failure there is passed on with the world unchanged. *)
Theorem X2_empty_array_is_null (env : Env) (props oldProps : Props.t) (w : World)
    (addr : nat) :
  Props.eeObject props = EEArray addr 0 ->
  ee_strict_eq (Props.eeObject props) (Props.eeObject oldProps) = false ->
  (Props.animate props = false ->
     _updateEEObject env props oldProps w = (Ok tt, handled EENull w)) /\
  (Props.animate props = true ->
     match ee_ImageCollection env (EEArray addr 0) with
     | Ok _ => _updateEEObject env props oldProps w = (Ok tt, handled EENull w)
     | Throw e => _updateEEObject env props oldProps w = (Throw e, w)
     end).
Proof.
  intros Hprop Hchanged. unfold _updateEEObject. rewrite Hchanged, Hprop.
  run_monad. split; intros ->; simpl; [reflexivity|].
  destruct (ee_ImageCollection env (EEArray addr 0)); reflexivity.
Qed.

Lemma X2_empty_array_is_null_witness :
  _updateEEObject (Sample.service 512)
    (Props.mk (Some "T1") (EEArray 7 0) Sample.vis_a true 12)
    (Sample.props_of Sample.image Sample.vis_a true)
    (Sample.showing Sample.image)
  = (Ok tt, handled EENull (Sample.showing Sample.image)).
Proof.
  destruct (X2_empty_array_is_null (Sample.service 512)
              (Props.mk (Some "T1") (EEArray 7 0) Sample.vis_a true 12)
              (Sample.props_of Sample.image Sample.vis_a true)
              (Sample.showing Sample.image) 7) as [_ Hanimate].
  - reflexivity.
  - reflexivity.
  - apply Hanimate. reflexivity.
Defined.

(** ** Render descriptor: the handle must be mappable *)

(** X3. When the guard lets a resolution through and the state holds a
    handle without a [getMap] method (an array, a string, an object of the
    wrong kind), the step fails with "eeObject must have a getMap() method"
    and leaves the world as it was, whether or not [animate] is set and
    whether or not the handle has a filmstrip method. *)
Theorem X3_handle_needs_getMap (env : Env) (props oldProps : Props.t)
    (changeFlags : ChangeFlags) (w : World) :
  guard_open props oldProps changeFlags ->
  ee_truthy (State.eeObject (state w)) = true ->
  ee_getMap (State.eeObject (state w)) = false ->
  _updateEEVisParams env props oldProps changeFlags w
  = (Throw (Error "eeObject must have a getMap() method"), w).
Proof.
  intros Hopen Htruthy Hmap.
  unfold _updateEEVisParams. rewrite (guard_open_false _ _ _ Hopen).
  run_monad. rewrite Htruthy, Hmap. reflexivity.
Qed.

Lemma X3_handle_needs_getMap_witness :
  _updateEEVisParams (Sample.service 512)
    (Sample.props_of Sample.image Sample.vis_b true)
    (Sample.props_of Sample.image Sample.vis_a true)
    Sample.unflagged
    (handled (EEArray 7 2) (Sample.showing Sample.image))
  = (Throw (Error "eeObject must have a getMap() method"),
     handled (EEArray 7 2) (Sample.showing Sample.image)).
Proof.
  apply (X3_handle_needs_getMap (Sample.service 512)
           (Sample.props_of Sample.image Sample.vis_b true)
           (Sample.props_of Sample.image Sample.vis_a true)
           Sample.unflagged
           (handled (EEArray 7 2) (Sample.showing Sample.image))).
  - left. reflexivity.
  - reflexivity.
  - reflexivity.
Defined.

(** ** The update cycle as a whole *)

(** Split an update cycle along what each of its steps can do. *)
Ltac cycle_step :=
  match goal with
  | |- context [_updateToken ?env ?p ?w] =>
      let H := fresh "Htoken" in
      destruct (_updateToken_cases env p w)
        as [[H ?]|[(?t & ? & ? & ? & H)|(?t & ?e & ? & ? & ? & H)]];
      rewrite H; clear H; simpl
  | |- context [_updateEEObject ?env ?p ?q ?w] =>
      let H := fresh "Hobject" in
      destruct (_updateEEObject_cases env p q w) as [H|[(?v & H)|(?e & H)]];
      rewrite H; clear H; simpl
  | |- context [_updateEEVisParams ?env ?p ?q ?c ?w] =>
      let H := fresh "Hvis" in
      destruct (_updateEEVisParams_cases env p q c w)
        as [H|[(?e & H)|[(?m & ? & H)|(?e & H)]]];
      rewrite H; clear H; simpl
  | |- context [_animate ?env ?p ?w] =>
      let H := fresh "Hanimate" in
      destruct (_animate_cases env p w) as [H|(?f & H)];
      rewrite H; clear H; simpl
  end.

Ltac cycle_cases := unfold updateState, bind; repeat cycle_step.

(** X4. One update cycle makes at most two outgoing calls, in this order: the
    session call for the token of the props, then the getMap call with the
    visParams of the props.  It never fetches a thumbnail, loads an image or
    slices a bitmap. *)
Theorem X4_updateState_calls (env : Env) (props oldProps : Props.t)
    (changeFlags : ChangeFlags) (w : World) :
  let r := updateState env props oldProps changeFlags w in
  exists calls,
    trace (snd r) = (trace w ++ calls)%list /\
    (calls = []
     \/ (exists t, Props.token props = Some t /\ calls = [CallInitialize t])
     \/ (exists o, calls = [CallGetMap o (Props.visParams props)])
     \/ (exists t o, Props.token props = Some t /\
           calls = [CallInitialize t; CallGetMap o (Props.visParams props)])).
Proof.
  intros r. subst r. cycle_cases;
    rewrite <- ?app_assoc; simpl;
    first
      [ exists []; split; [rewrite app_nil_r; reflexivity | left; reflexivity]
      | eexists; split; [reflexivity|]; right; left; eexists; split; [eassumption | reflexivity]
      | eexists; split; [reflexivity|]; right; right; left; eexists; reflexivity
      | eexists; split; [reflexivity|]; right; right; right; do 2 eexists;
        split; [eassumption | reflexivity] ].
Qed.

(** X5. An update cycle never touches [nFrames]; and a cycle that fails, at
    whatever step, leaves mapid, urlFormat, renderMethod and frame as they
    were: the descriptor is stored only by a cycle that runs to its end. *)
Theorem X5_updateState_failure_keeps_descriptor (env : Env) (props oldProps : Props.t)
    (changeFlags : ChangeFlags) (w : World) :
  let r := updateState env props oldProps changeFlags w in
  State.nFrames (state (snd r)) = State.nFrames (state w) /\
  (forall e, fst r = Throw e -> same_but_eeObject (state (snd r)) (state w)).
Proof.
  intros r. subst r. unfold same_but_eeObject.
  cycle_cases; (split; [reflexivity|]); intros e0 He0;
    first [ discriminate He0 | repeat split ].
Qed.

(** X6. After an update cycle that succeeds with a non-empty token in the
    props, that token is the active credential. *)
Theorem X6_updateState_session (env : Env) (props oldProps : Props.t)
    (changeFlags : ChangeFlags) (w : World) (t : string) :
  Props.token props = Some t ->
  t <> "" ->
  fst (updateState env props oldProps changeFlags w) = Ok tt ->
  accessToken (snd (updateState env props oldProps changeFlags w)) = Some t.
Proof.
  intros Htok Hne. cycle_cases; intros Hok; try discriminate Hok;
    match goal with
    | H : str_falsy _ = true \/ _ |- _ =>
        destruct H as [H|H];
        [ rewrite Htok, (str_falsy_of_ne _ Hne) in H; discriminate H
        | congruence ]
    | _ => congruence
    end.
Qed.

Lemma X6_updateState_session_witness :
  accessToken (snd (updateState (Sample.service 512)
                      (Sample.props_of Sample.image Sample.vis_a false)
                      (Props.mk None EEUndefined VisUndefined false 12)
                      Sample.unflagged Sample.fresh))
  = Some "T1".
Proof.
  apply (X6_updateState_session (Sample.service 512)
           (Sample.props_of Sample.image Sample.vis_a false)
           (Props.mk None EEUndefined VisUndefined false 12)
           Sample.unflagged Sample.fresh "T1").
  - reflexivity.
  - discriminate.
  - vm_compute. reflexivity.
Defined.

Lemma _updateEEObject_empty_array (env : Env) (props oldProps : Props.t) (w : World)
    (addr : nat) :
  Props.eeObject props = EEArray addr 0 ->
  ee_strict_eq (Props.eeObject props) (Props.eeObject oldProps) = false ->
  _updateEEObject env props oldProps w = (Ok tt, handled EENull w)
  \/ exists e, _updateEEObject env props oldProps w = (Throw e, w).
Proof.
  intros Hprop Hchanged. unfold _updateEEObject. rewrite Hchanged, Hprop.
  run_monad. destruct (Props.animate props); simpl; [|left; reflexivity].
  destruct (ee_ImageCollection env (EEArray addr 0)) as [v|e];
    [left; reflexivity | right; exists e; reflexivity].
Qed.

Lemma _updateEEVisParams_no_handle (env : Env) (props oldProps : Props.t)
    (changeFlags : ChangeFlags) (w : World) :
  ee_truthy (State.eeObject (state w)) = false ->
  _updateEEVisParams env props oldProps changeFlags w = (Ok tt, w).
Proof.
  intros Hnone. unfold _updateEEVisParams.
  destruct (_ && _); [reflexivity|]. run_monad. rewrite Hnone. reflexivity.
Qed.

(** X7. A cycle whose [eeObject] prop changes to an empty array never
    reaches getMap: the only call it can make is the session call, mapid,
    urlFormat and renderMethod stay as they were, and when the cycle succeeds
    the stored handle is [null]. *)
Theorem X7_empty_array_skips_resolution (env : Env) (props oldProps : Props.t)
    (changeFlags : ChangeFlags) (w : World) (addr : nat) :
  Props.eeObject props = EEArray addr 0 ->
  ee_strict_eq (Props.eeObject props) (Props.eeObject oldProps) = false ->
  let r := updateState env props oldProps changeFlags w in
  (exists calls,
     trace (snd r) = (trace w ++ calls)%list /\
     (calls = [] \/ exists t, calls = [CallInitialize t])) /\
  State.mapid (state (snd r)) = State.mapid (state w) /\
  State.urlFormat (state (snd r)) = State.urlFormat (state w) /\
  State.renderMethod (state (snd r)) = State.renderMethod (state w) /\
  (fst r = Ok tt -> State.eeObject (state (snd r)) = EENull).
Proof.
  intros Hprop Hchanged r. subst r. unfold updateState, bind.
  cycle_step;
    match goal with
    | |- context [_updateEEObject env props oldProps ?w0] =>
        destruct (_updateEEObject_empty_array env props oldProps w0 addr Hprop Hchanged)
          as [Hobj|[e' Hobj]]; rewrite Hobj; clear Hobj; simpl
    | _ => idtac
    end;
    rewrite ?_updateEEVisParams_no_handle by reflexivity; simpl;
    try cycle_step;
    (split; [|repeat split; try discriminate]);
    first
      [ exists []; split; [rewrite app_nil_r; reflexivity | left; reflexivity]
      | eexists; split; [reflexivity|]; right; eexists; reflexivity ].
Qed.

Lemma X7_empty_array_skips_resolution_witness :
  State.eeObject (state (snd (updateState (Sample.service 512)
    (Props.mk (Some "T1") (EEArray 7 0) Sample.vis_b false 12)
    (Sample.props_of Sample.image Sample.vis_a false)
    Sample.unflagged (Sample.showing Sample.image)))) = EENull.
Proof.
  destruct (X7_empty_array_skips_resolution (Sample.service 512)
    (Props.mk (Some "T1") (EEArray 7 0) Sample.vis_b false 12)
    (Sample.props_of Sample.image Sample.vis_a false)
    Sample.unflagged (Sample.showing Sample.image) 7) as (_ & _ & _ & _ & Hnull).
  - reflexivity.
  - reflexivity.
  - apply Hnull. vm_compute. reflexivity.
Defined.

(** ** Rendering *)

(** X8. A layer whose state holds no mapid renders nothing.  If it renders
    a tile layer after an update cycle, that cycle succeeded, its last call
    was a getMap round trip that resolved, and the tile layer is built from
    what [getSubLayerProps] makes of the mapid of the answer. *)
Theorem X8_render_needs_resolution {P : Type} (getSubLayerProps : string -> P)
    (env : Env) (props oldProps : Props.t)
    (changeFlags : ChangeFlags) (w : World) (layer : TileLayer P) :
  str_falsy (State.mapid (state w)) = true ->
  let r := updateState env props oldProps changeFlags w in
  renderLayers getSubLayerProps (state w) = None /\
  (renderLayers getSubLayerProps (state (snd r)) = Some layer ->
     fst r = Ok tt /\
     exists o m mapid earlier,
       promisifyEEMethod_getMap env o (Props.visParams props) = Ok m /\
       mapid_of m = Some mapid /\
       tl_props layer = getSubLayerProps mapid /\
       trace (snd r) = (earlier ++ [CallGetMap o (Props.visParams props)])%list).
Proof.
  intros Hnone r. subst r.
  assert (Hblank : forall st, State.mapid st = State.mapid (state w) ->
                     renderLayers getSubLayerProps st = None).
  { intros st Hst. unfold renderLayers. rewrite Hst, Hnone. reflexivity. }
  split; [apply Hblank; reflexivity|].
  cycle_cases; intros Hlayer;
    try (rewrite Hblank in Hlayer by reflexivity; discriminate Hlayer);
    (split; [reflexivity|]);
    unfold renderLayers in Hlayer; simpl in Hlayer;
    destruct (mapid_of m) as [id|] eqn:Hid; simpl in Hlayer; try discriminate Hlayer;
    destruct (String.eqb id ""); try discriminate Hlayer;
    injection Hlayer as <-; simpl;
    do 4 eexists; (split; [eassumption|]); (split; [exact Hid|]);
    (split; [reflexivity|]);
    rewrite ?app_assoc; reflexivity.
Qed.

Lemma X8_render_needs_resolution_witness :
  renderLayers (String.append "L-") (state Sample.fresh) = None /\
  fst (updateState (Sample.service 512)
         (Sample.props_of Sample.image Sample.vis_a false)
         (Props.mk None EEUndefined VisUndefined false 12)
         Sample.unflagged Sample.fresh) = Ok tt.
Proof.
  destruct (X8_render_needs_resolution (String.append "L-") (Sample.service 512)
              (Sample.props_of Sample.image Sample.vis_a false)
              (Props.mk None EEUndefined VisUndefined false 12)
              Sample.unflagged Sample.fresh
              {| tl_props := "L-m1"; tl_frame := whole 0 |}) as [Hblank Hlayer].
  - reflexivity.
  - split; [exact Hblank|]. apply Hlayer. vm_compute. reflexivity.
Defined.

(** ** Tile fetches and the state *)

Lemma same_but_nFrames_refl (st : State.t) : same_but_nFrames st st.
Proof. unfold same_but_nFrames. auto. Qed.

(** What a filmstrip fetch can come to: a failed thumbnail request, a failed
    load, or every slice requested. *)
Lemma getFilmstripTileData_cases (env : Env) (this_props : Props.t) (tile : Tile)
    (w : World) :
  let o := State.eeObject (state w) in
  let args := film_args (Props.visParams this_props) (bbox tile) in
  (exists e, promisifyEEMethod_getFilmstripThumbURL env o args = Throw e /\
     getFilmstripTileData env this_props tile w
     = (Throw e, called [CallGetFilmstripThumbURL o args] w))
  \/ (exists url e, promisifyEEMethod_getFilmstripThumbURL env o args = Ok url /\
        load env url true = Throw e /\
        getFilmstripTileData env this_props tile w
        = (Throw e, called [CallGetFilmstripThumbURL o args; CallLoad url true] w))
  \/ (exists url image, promisifyEEMethod_getFilmstripThumbURL env o args = Ok url /\
        load env url true = Ok image /\
        snd (getFilmstripTileData env this_props tile w) = sliced o args url image w).
Proof.
  intros o args. subst o args.
  destruct (promisifyEEMethod_getFilmstripThumbURL env (State.eeObject (state w))
              (film_args (Props.visParams this_props) (bbox tile))) as [url|e] eqn:Hurl.
  - destruct (load env url true) as [image|e] eqn:Hload.
    + right. right. exists url, image. split; [reflexivity|]. split; [exact Hload|].
      rewrite (getFilmstripTileData_run env this_props tile w url image Hurl Hload).
      reflexivity.
    + right. left. exists url, e. split; [reflexivity|]. split; [exact Hload|].
      unfold getFilmstripTileData, called. run_monad.
      rewrite Hurl. simpl. rewrite Hload. simpl.
      rewrite <- app_assoc. reflexivity.
  - left. exists e. split; [reflexivity|].
    unfold getFilmstripTileData, called. run_monad. rewrite Hurl. reflexivity.
Qed.

(** X9. Fetching a tile never touches the active token nor any field of the
    state but [nFrames], and only adds calls to the trace.  In tiled mode the
    state is left exactly as it was and at most one call (the image load) is
    made. *)
Theorem X9_tile_fetch_frame (env : Env) (this_props : Props.t) (tile : Tile) (w : World) :
  let r := getTileData env this_props tile w in
  accessToken (snd r) = accessToken w /\
  same_but_nFrames (state (snd r)) (state w) /\
  (exists calls, trace (snd r) = (trace w ++ calls)%list) /\
  (State.renderMethod (state w) <> Some filmstrip ->
     state (snd r) = state w /\
     exists calls, trace (snd r) = (trace w ++ calls)%list /\ (length calls <= 1)%nat).
Proof.
  intros r. subst r.
  assert (Htiled :
    accessToken (snd (getImageTileData env tile w)) = accessToken w /\
    state (snd (getImageTileData env tile w)) = state w /\
    exists calls, trace (snd (getImageTileData env tile w)) = (trace w ++ calls)%list
                  /\ (length calls <= 1)%nat).
  { unfold getImageTileData. run_monad.
    destruct (State.urlFormat (state w)) as [u|]; simpl.
    - destruct (String.eqb u ""); simpl.
      + repeat split. exists []. rewrite app_nil_r. auto.
      + destruct (load env _ false); simpl; repeat split; eexists; split;
          try reflexivity; simpl; lia.
    - repeat split. exists []. rewrite app_nil_r. auto. }
  destruct Htiled as (Htok & Hst & calls & Htrace & Hlen).
  unfold getTileData. run_monad.
  destruct (State.renderMethod (state w)) as [[|]|] eqn:Hmode.
  - split; [|split; [|split; [|congruence]]].
    + destruct (getFilmstripTileData_cases env this_props tile w)
        as [(e & _ & ->)|[(url & e & _ & _ & ->)|(url & image & _ & _ & ->)]];
        reflexivity.
    + destruct (getFilmstripTileData_cases env this_props tile w)
        as [(e & _ & ->)|[(url & e & _ & _ & ->)|(url & image & _ & _ & ->)]];
        simpl; try apply same_but_nFrames_refl.
      unfold same_but_nFrames. simpl. auto.
    + destruct (getFilmstripTileData_cases env this_props tile w)
        as [(e & _ & ->)|[(url & e & _ & _ & ->)|(url & image & _ & _ & ->)]];
        simpl; eexists; reflexivity.
  - rewrite Htok, Hst. split; [reflexivity|]. split; [apply same_but_nFrames_refl|].
    split; [exists calls; exact Htrace|]. intros _. split; [reflexivity|].
    exists calls. auto.
  - rewrite Htok, Hst. split; [reflexivity|]. split; [apply same_but_nFrames_refl|].
    split; [exists calls; exact Htrace|]. intros _. split; [reflexivity|].
    exists calls. auto.
Qed.

(** X10. A filmstrip fetch that fails early records nothing.  When the
    thumbnail request rejects, that request is the only call made; when the
    image load rejects, no bitmap is sliced.  In both cases the error is
    passed on and the state, [nFrames] included, is as before. *)
Theorem X10_filmstrip_early_failure (env : Env) (this_props : Props.t) (tile : Tile)
    (w : World) :
  let o := State.eeObject (state w) in
  let args := film_args (Props.visParams this_props) (bbox tile) in
  (forall e, promisifyEEMethod_getFilmstripThumbURL env o args = Throw e ->
     getFilmstripTileData env this_props tile w
     = (Throw e, called [CallGetFilmstripThumbURL o args] w)) /\
  (forall url e, promisifyEEMethod_getFilmstripThumbURL env o args = Ok url ->
     load env url true = Throw e ->
     getFilmstripTileData env this_props tile w
     = (Throw e, called [CallGetFilmstripThumbURL o args; CallLoad url true] w)).
Proof.
  intros o args. subst o args. split.
  - intros e Hurl.
    destruct (getFilmstripTileData_cases env this_props tile w)
      as [(e' & Hurl' & ->)|[(url & e' & Hurl' & _)|(url & image & Hurl' & _)]];
      congruence.
  - intros url e Hurl Hload.
    destruct (getFilmstripTileData_cases env this_props tile w)
      as [(e' & Hurl' & _)|[(url' & e' & Hurl' & Hload' & ->)|(url' & image & Hurl' & Hload' & _)]];
      congruence.
Qed.

Lemma X10_filmstrip_early_failure_witness :
  getFilmstripTileData Outage.no_thumbnail
    (Sample.props_of Sample.collection Sample.vis_a true)
    Sample.origin (Sample.holding Sample.collection)
  = (Throw (Error "quota exceeded"),
     called [CallGetFilmstripThumbURL (EEObj Sample.collection)
               (film_args Sample.vis_a (bbox Sample.origin))]
       (Sample.holding Sample.collection))
  /\
  getFilmstripTileData Outage.no_image
    (Sample.props_of Sample.collection Sample.vis_a true)
    Sample.origin (Sample.holding Sample.collection)
  = (Throw (Error "404"),
     called [CallGetFilmstripThumbURL (EEObj Sample.collection)
               (film_args Sample.vis_a (bbox Sample.origin));
             CallLoad "https://ee/film" true]
       (Sample.holding Sample.collection)).
Proof.
  destruct (X10_filmstrip_early_failure Outage.no_thumbnail
              (Sample.props_of Sample.collection Sample.vis_a true)
              Sample.origin (Sample.holding Sample.collection)) as [Hthumb _].
  destruct (X10_filmstrip_early_failure Outage.no_image
              (Sample.props_of Sample.collection Sample.vis_a true)
              Sample.origin (Sample.holding Sample.collection)) as [_ Hload].
  split.
  - apply Hthumb. reflexivity.
  - apply Hload; reflexivity.
Defined.

(** ** The animated frame and the slices *)

Lemma all_settled_Ok_inv {A} (ps : list (Res A)) (l : list A) :
  all_settled ps = Ok l -> ps = Ok <$> l.
Proof.
  revert l. induction ps as [|p ps IH]; intros l H.
  - injection H as <-. reflexivity.
  - destruct p as [a|e]; cbn [all_settled] in H; [|discriminate].
    destruct (all_settled ps) as [l'|e]; [|discriminate].
    injection H as <-. rewrite fmap_cons, (IH l' eq_refl). reflexivity.
Qed.

Lemma strip_quotient_pos (image : Image) :
  (0 < img_height image)%Z -> (0 < strip_quotient image)%Q.
Proof.
  intros H. unfold strip_quotient. apply Qdiv_pos; [|reflexivity].
  change 0%Q with (inject_Z 0). rewrite <- Zlt_Qlt. exact H.
Qed.

(** The quotient of a height that a Number holds exactly is a double, from
    1/256 up. *)
Lemma strip_quotient_double (image : Image) :
  (0 < img_height image < 2 ^ 53)%Z ->
  exists n, round64 (strip_quotient image) = Finite n
            /\ (n == strip_quotient image)%Q /\ dyadic53 n
            /\ (2 ^ (-8) <= n)%Q /\ (n < 2 ^ 1024)%Q.
Proof.
  intros Hh.
  assert (Hq : (strip_quotient image == inject_Z (img_height image) * 2 ^ (-8))%Q).
  { unfold strip_quotient, TILE_SIZE. change (2 ^ (-8))%Q with (/ inject_Z 256)%Q.
    reflexivity. }
  assert (H1 : (1 <= inject_Z (img_height image))%Q).
  { change 1%Q with (inject_Z 1). rewrite <- Zle_Qle. lia. }
  assert (H53 : (inject_Z (img_height image) < 2 ^ 53)%Q).
  { rewrite (pow2_int 53) by lia. rewrite <- Zlt_Qlt. lia. }
  pose proof (pow2_pos (-8)) as Hp8.
  assert (Hu8 : (2 ^ (-8) <= 1)%Q).
  { change 1%Q with (2 ^ 0)%Q. apply pow2_le. lia. }
  assert (Hlo : (2 ^ (-8) <= strip_quotient image)%Q) by (rewrite Hq; nra).
  assert (Hhi : (strip_quotient image < 2 ^ 1024)%Q).
  { apply Qlt_trans with (2 ^ 53)%Q; [|apply pow2_lt; lia]. rewrite Hq. nra. }
  destruct (round64_exact (strip_quotient image)) as (n & Hn64 & Hn & Dn).
  - exists (img_height image), (-8)%Z. split; [exact Hq | lia].
  - apply Qle_trans with (2 ^ (-8))%Q; [apply pow2_le; lia | exact Hlo].
  - exact Hhi.
  - exists n. split; [exact Hn64|]. split; [exact Hn|]. split; [exact Dn|].
    split; rewrite Hn; assumption.
Qed.

Lemma index_frame_whole (frames : list Picture) (frame : Z) :
  (0 <= frame)%Z -> index_frame frames (whole frame) = frames !! Z.to_nat frame.
Proof.
  intros H. unfold index_frame, whole. rewrite Qfloor_Z.
  rewrite Qeq_bool_refl. destruct (Z.ltb_spec frame 0) as [Hneg|_]; [lia|].
  reflexivity.
Qed.

(** X11. The frame that the clock writes after a filmstrip fetch always
    selects one of the slices of that fetch.  For a strip of a positive
    height that a Number holds exactly (a multiple of 256 or not), a speed
    from 0 up whose double is finite and a clock within the range of [Date]
    from the epoch on: the frame of the rendered tile layer, computed in
    binary64, is a whole number below the number of slices, and on the
    frames the fetch resolved to [renderSubLayers] shows exactly the slice at
    that index, on the bounds of the tile. *)
Theorem X11_animated_frame_is_sliced {P : Type} (getSubLayerProps : string -> P)
    (env : Env) (this_props : Props.t) (tile : Tile)
    (w : World) (url : string) (image : Image) (s : Q) (layer : TileLayer P) :
  let o := State.eeObject (state w) in
  let args := film_args (Props.visParams this_props) (bbox tile) in
  promisifyEEMethod_getFilmstripThumbURL env o args = Ok url ->
  load env url true = Ok image ->
  (0 < img_height image < 2 ^ 53)%Z ->
  (0 <= Props.animationSpeed this_props)%Q ->
  round64 (Props.animationSpeed this_props) = Finite s ->
  (0 <= Date_now env <= 8640000000000000)%Z ->
  let fetched := getFilmstripTileData env this_props tile w in
  let animated := _animate env this_props (snd fetched) in
  renderLayers getSubLayerProps (state (snd animated)) = Some layer ->
  exists f,
    tl_frame layer = whole f /\
    (0 <= f < strip_rounds image)%Z /\
    (forall frames, fst fetched = Ok (Some frames) ->
       length frames = Z.to_nat (strip_rounds image) /\
       renderSubLayers (tl_frame layer) (Loaded frames) (bbox tile)
       = Some {| bl_image := ImageNow (frame_of image f);
                 bl_bounds := [west (bbox tile); south (bbox tile);
                               east (bbox tile); north (bbox tile)] |}).
Proof.
  intros o args Hurl Hload Hheight Hspeed Hs Hclock fetched animated.
  subst fetched animated.
  rewrite (getFilmstripTileData_run env this_props tile w url image Hurl Hload).
  simpl fst. simpl snd. fold o args.
  destruct (strip_quotient_double image Hheight) as (n & Hn64 & Hn & Dn & Hn8 & Hfin).
  destruct (round64_Finite_inv _ s Hs Hspeed) as [Hs_eq Hs1].
  assert (Hs0 : (0 <= s)%Q) by (rewrite Hs_eq; apply rnd_nonneg).
  destruct (timestamp_double (Date_now env) Hclock) as (t & Ht & Ht0 & Dt).
  destruct (frame_at_range t n s Dt Ht0 Dn Hn8 Hfin Hs0 Hs1) as (f & Hf & Hf0 & Hf1).
  assert (Hpos : (0 < strip_quotient image)%Q) by (apply strip_quotient_pos; lia).
  assert (Hrun : _animate env this_props (sliced o args url image w)
                 = (Ok tt, ticked (whole f) (sliced o args url image w))).
  { rewrite (_animate_run env this_props _ (strip_quotient image)).
    - rewrite Hs, Ht, Hn64, Hf. reflexivity.
    - reflexivity.
    - lra. }
  assert (Hbelow : (f < strip_rounds image)%Z).
  { unfold strip_rounds. rewrite Zlt_Qlt.
    pose proof (Qle_ceiling (strip_quotient image)). lra. }
  rewrite Hrun. intros Hlayer.
  assert (Hframe : tl_frame layer = whole f).
  { unfold renderLayers in Hlayer. cbn [snd state ticked State.frame State.mapid
                                         with_frame] in Hlayer.
    destruct (str_falsy (State.mapid (state (sliced o args url image w))));
      [discriminate|].
    destruct (State.mapid (state (sliced o args url image w))); [|discriminate].
    injection Hlayer as <-. reflexivity. }
  exists f. split; [exact Hframe|]. split; [lia|].
  intros frames Hframes. rewrite Hframe.
  destruct (all_settled (slice_outcome env image <$> seqZ 0 (strip_rounds image)))
    as [l|e] eqn:Hall; [|discriminate].
  injection Hframes as ->.
  apply all_settled_Ok_inv in Hall.
  split.
  - apply (f_equal length) in Hall. rewrite !length_fmap, length_seqZ in Hall.
    symmetry. exact Hall.
  - unfold renderSubLayers. rewrite index_frame_whole by exact Hf0.
    assert (Hlook : (slice_outcome env image <$> seqZ 0 (strip_rounds image)) !! Z.to_nat f
                    = Some (slice_outcome env image f)).
    { rewrite list_lookup_fmap, lookup_seqZ_lt by lia.
      simpl. f_equal. f_equal. lia. }
    rewrite Hall, list_lookup_fmap in Hlook.
    destruct (frames !! Z.to_nat f) as [p|]; [|discriminate].
    simpl in Hlook. unfold slice_outcome in Hlook.
    destruct (createImageBitmap_rejects env image 0 (f * TILE_SIZE) TILE_SIZE TILE_SIZE);
      [discriminate|].
    injection Hlook as ->. reflexivity.
Qed.

Lemma X11_animated_frame_is_sliced_witness :
  exists layer f,
    renderLayers (String.append "L-")
      (state (snd (_animate (Sample.service 300)
                     (Sample.props_of Sample.collection Sample.vis_a true)
                     (snd (getFilmstripTileData (Sample.service 300)
                             (Sample.props_of Sample.collection Sample.vis_a true)
                             Sample.origin Sample.playing)))))
    = Some layer /\
    tl_frame layer = whole f /\
    (0 <= f < strip_rounds (Sample.strip 300))%Z.
Proof.
  exists {| tl_props := "L-m1"; tl_frame := whole 1 |}.
  destruct (X11_animated_frame_is_sliced (String.append "L-") (Sample.service 300)
              (Sample.props_of Sample.collection Sample.vis_a true)
              Sample.origin Sample.playing "https://ee/film" (Sample.strip 300) 12
              {| tl_props := "L-m1"; tl_frame := whole 1 |}) as (f & Hframe & Hrange & _).
  - reflexivity.
  - reflexivity.
  - split; reflexivity.
  - discriminate.
  - vm_compute. reflexivity.
  - split; discriminate.
  - vm_compute. reflexivity.
  - exists f. split; [vm_compute; reflexivity|]. split; [exact Hframe | exact Hrange].
Defined.

(** ** Choosing the image of a tile *)

Lemma index_frame_in_range (frames : list Picture) (frame : Z) :
  (0 <= frame < Z.of_nat (length frames))%Z ->
  exists p, frames !! Z.to_nat frame = Some p
            /\ index_frame frames (whole frame) = Some p.
Proof.
  intros Hrange. rewrite index_frame_whole by lia.
  destruct (lookup_lt_is_Some_2 frames (Z.to_nat frame)) as [p Hp]; [lia|].
  exists p. auto.
Qed.

Lemma index_frame_out_of_range (frames : list Picture) (frame : Z) :
  ~ (0 <= frame < Z.of_nat (length frames))%Z ->
  index_frame frames (whole frame) = None.
Proof.
  intros Hrange. destruct (Z.ltb_spec frame 0) as [Hneg|Hpos].
  - unfold index_frame, whole. rewrite Qfloor_Z.
    destruct (Z.ltb_spec frame 0) as [_|Hpos]; [|lia].
    rewrite andb_false_r. reflexivity.
  - rewrite index_frame_whole by exact Hpos. apply lookup_ge_None. lia.
Qed.

Lemma index_frame_not_whole (frames : list Picture) (x : Number) :
  (forall q, x = Finite q -> ~ (q == inject_Z (Qfloor q))%Q) ->
  index_frame frames x = None.
Proof.
  intros Hx. destruct x as [q| |]; try reflexivity.
  unfold index_frame.
  destruct (Qeq_bool q (inject_Z (Qfloor q))) eqn:E; [|reflexivity].
  apply Qeq_bool_iff in E. destruct (Hx q eq_refl E).
Qed.

(** X12. A tile without data renders nothing.  A tile holding an array of
    frames renders the frame at the current index on the bounds
    [west, south, east, north] when that index lies within the array, and
    nothing, without an error, when it lies outside (a negative index, or one
    at or beyond the length) or is no whole number at all (a fraction, an
    infinity, NaN).  A tile still loading always gets a layer. *)
Theorem X12_sublayer_selection (frame : Z) (frames : list Picture) (b : BBox) :
  (forall x, renderSubLayers x NoContent b = None) /\
  ((0 <= frame < Z.of_nat (length frames))%Z ->
     exists p, frames !! Z.to_nat frame = Some p /\
       renderSubLayers (whole frame) (Loaded frames) b
       = Some {| bl_image := ImageNow p;
                 bl_bounds := [west b; south b; east b; north b] |}) /\
  (~ (0 <= frame < Z.of_nat (length frames))%Z ->
     renderSubLayers (whole frame) (Loaded frames) b = None) /\
  (forall x, (forall q, x = Finite q -> ~ (q == inject_Z (Qfloor q))%Q) ->
     renderSubLayers x (Loaded frames) b = None) /\
  (forall x settles_to, exists later,
     renderSubLayers x (Loading settles_to) b
     = Some {| bl_image := ImageLater later;
               bl_bounds := [west b; south b; east b; north b] |}).
Proof.
  split; [reflexivity|]. split; [|split; [|split]].
  - intros Hrange.
    destruct (index_frame_in_range frames frame Hrange) as (p & Hp & Hidx).
    exists p. split; [exact Hp|]. unfold renderSubLayers. rewrite Hidx. reflexivity.
  - intros Hrange. unfold renderSubLayers.
    rewrite (index_frame_out_of_range frames frame Hrange). reflexivity.
  - intros x Hx. unfold renderSubLayers.
    rewrite (index_frame_not_whole frames x Hx). reflexivity.
  - intros x settles_to. eexists. reflexivity.
Qed.

Lemma X12_sublayer_selection_witness :
  renderSubLayers (whole 2) (Loaded [Whole (Sample.strip 256); Whole (Sample.strip 512)])
    (bbox Sample.origin) = None.
Proof.
  destruct (X12_sublayer_selection 2
              [Whole (Sample.strip 256); Whole (Sample.strip 512)]
              (bbox Sample.origin)) as (_ & _ & Hout & _).
  apply Hout. simpl. lia.
Defined.

(** X13. What a tiled-mode fetch resolves to is an array of one image, so
    the tile is shown while the frame of the layer is 0 and hidden for every
    other frame. *)
Theorem X13_tiled_tile_shows_at_frame_zero (env : Env) (tile : Tile) (w : World)
    (frames : list Picture) (frame : Z) :
  fst (getImageTileData env tile w) = Ok (Some frames) ->
  (exists image,
     frames = [Whole image] /\
     renderSubLayers (whole 0) (Loaded frames) (bbox tile)
     = Some {| bl_image := ImageNow (Whole image);
               bl_bounds := [west (bbox tile); south (bbox tile);
                             east (bbox tile); north (bbox tile)] |}) /\
  (frame <> 0%Z -> renderSubLayers (whole frame) (Loaded frames) (bbox tile) = None).
Proof.
  intros Hfetch.
  assert (Hone : exists image, frames = [Whole image]).
  { revert Hfetch. unfold getImageTileData. run_monad.
    destruct (State.urlFormat (state w)) as [u|]; simpl; [|discriminate].
    destruct (String.eqb u ""); simpl; [discriminate|].
    destruct (load env _ false) as [image|e]; simpl; [|discriminate].
    intros [= <-]. exists image. reflexivity. }
  destruct Hone as (image & ->). split.
  - exists image. split; reflexivity.
  - intros Hframe. unfold renderSubLayers.
    rewrite index_frame_out_of_range; [reflexivity|]. simpl. lia.
Qed.

Lemma X13_tiled_tile_shows_at_frame_zero_witness :
  renderSubLayers (whole 1)
    (Loaded [Whole {| img_url := "https://x/2/3/7.png"; img_width := 256;
                      img_height := 512 |}])
    (bbox Sample.origin) = None.
Proof.
  destruct (X13_tiled_tile_shows_at_frame_zero (Sample.service 512) Sample.origin
              Sample.tiled
              [Whole {| img_url := "https://x/2/3/7.png"; img_width := 256;
                        img_height := 512 |}] 1) as [_ Hhidden].
  - vm_compute. reflexivity.
  - apply Hhidden. discriminate.
Defined.

(** ** Templates with each token once *)

Lemma brace_free_app (a b : string) :
  brace_free (a +:+ b) = brace_free a && brace_free b.
Proof.
  induction a as [|c a IH]; [reflexivity|].
  rewrite append_cons. simpl. rewrite IH, andb_assoc. reflexivity.
Qed.

Lemma brace_free_digit (d : N) (s : string) :
  brace_free (String (pretty_N_char d) s) = brace_free s.
Proof.
  simpl. replace (Ascii.eqb (pretty_N_char d) left_brace) with false; [reflexivity|].
  unfold pretty_N_char. repeat case_match; reflexivity.
Qed.

Lemma brace_free_pretty_N_go (x : N) :
  forall s, brace_free s = true -> brace_free (pretty_N_go x s) = true.
Proof.
  induction (N.lt_wf_0 x) as [x _ IH]. intros s Hs.
  destruct (N.eq_dec x 0%N) as [->|Hx].
  - rewrite pretty_N_go_0. exact Hs.
  - rewrite pretty_N_go_step by lia. apply IH.
    + apply N.div_lt; lia.
    + rewrite brace_free_digit. exact Hs.
Qed.

Lemma brace_free_pretty_N (x : N) : brace_free (pretty x) = true.
Proof.
  unfold pretty, pretty_N. case_decide; [reflexivity|].
  apply brace_free_pretty_N_go. reflexivity.
Qed.

(** The decimal form of an integer holds no brace. *)
Lemma brace_free_to_string (n : Z) : brace_free (to_string n) = true.
Proof.
  unfold to_string, pretty, pretty_Z. destruct n as [|p|p].
  - reflexivity.
  - apply (brace_free_pretty_N (N.pos p)).
  - rewrite brace_free_app. apply (brace_free_pretty_N (N.pos p)).
Qed.

Lemma replace_miss_head (pat rep : string) (c : Ascii.ascii) (s : string) :
  String.prefix pat (String c s) = false ->
  replace pat rep (String c s) = String c (replace pat rep s).
Proof. intros H. rewrite replace_unfold, H. reflexivity. Qed.

Lemma prefix_brace_miss (tail : string) (c : Ascii.ascii) (s : string) :
  negb (Ascii.eqb c left_brace) = true ->
  String.prefix (String left_brace tail) (String c s) = false.
Proof.
  intros Hc.
  change (String.prefix (String left_brace tail) (String c s))
    with (if Ascii.ascii_dec left_brace c then String.prefix tail s else false).
  destruct (Ascii.ascii_dec left_brace c) as [<-|_]; [|reflexivity].
  rewrite Ascii.eqb_refl in Hc. discriminate Hc.
Qed.

(** A stretch without a brace is passed over by the search for a token. *)
Lemma replace_skips_brace_free (tail rep a t : string) :
  brace_free a = true ->
  replace (String left_brace tail) rep (a +:+ t)
  = a +:+ replace (String left_brace tail) rep t.
Proof.
  induction a as [|c a IH]; intros Hfree; [reflexivity|].
  simpl in Hfree. apply andb_true_iff in Hfree as [Hc Hfree].
  rewrite !append_cons.
  rewrite replace_miss_head by (apply prefix_brace_miss; exact Hc).
  rewrite IH by exact Hfree. reflexivity.
Qed.

Lemma replace_hits_head (pat rep t : string) :
  replace pat rep (pat +:+ t) = rep +:+ t.
Proof.
  rewrite replace_unfold.
  assert (Hpre : String.prefix pat (pat +:+ t) = true).
  { apply prefix_app_iff. exists t. reflexivity. }
  rewrite Hpre, string_drop_app. reflexivity.
Qed.

Lemma replace_brace_free (tail rep a : string) :
  brace_free a = true -> replace (String left_brace tail) rep a = a.
Proof.
  induction a as [|c a IH]; intros Hfree; [reflexivity|].
  simpl in Hfree. apply andb_true_iff in Hfree as [Hc Hfree].
  rewrite replace_miss_head by (apply prefix_brace_miss; exact Hc).
  rewrite IH by exact Hfree. reflexivity.
Qed.

(** X14. For a template that names each token once, in the order z, x, y,
    between stretches without a left brace (the shape of the Earth Engine
    tile URLs), the request URL is the template with the three coordinates
    in the places of their tokens; and a template without a left brace is
    requested as it is. *)
Theorem X14_zxy_template (a b c d : string) (x y z : Z) :
  brace_free a = true -> brace_free b = true ->
  brace_free c = true -> brace_free d = true ->
  image_url (a +:+ "{z}" +:+ b +:+ "{x}" +:+ c +:+ "{y}" +:+ d) x y z
  = a +:+ to_string z +:+ b +:+ to_string x +:+ c +:+ to_string y +:+ d
  /\ image_url a x y z = a.
Proof.
  intros Ha Hb Hc Hd.
  pose proof (brace_free_to_string x) as Hx.
  pose proof (brace_free_to_string y) as Hy.
  assert (Hskip_z : forall tail rep t,
            String.prefix (String left_brace tail) ("{z}" +:+ t) = false ->
            replace (String left_brace tail) rep ("{z}" +:+ t)
            = "{z}" +:+ replace (String left_brace tail) rep t).
  { intros tail rep t Hpre.
    change ("{z}" +:+ t) with (String left_brace ("z}" +:+ t)) in *.
    rewrite replace_miss_head by exact Hpre.
    change ("z}" +:+ t) with ("z" +:+ "}" +:+ t).
    rewrite (replace_skips_brace_free tail rep "z" ("}" +:+ t)) by reflexivity.
    rewrite (replace_skips_brace_free tail rep "}" t) by reflexivity.
    reflexivity. }
  unfold image_url. split.
  - change "{x}" with (String left_brace "x}") at 1.
    rewrite (replace_skips_brace_free "x}" _ a) by exact Ha.
    rewrite Hskip_z by reflexivity.
    rewrite (replace_skips_brace_free "x}" _ b) by exact Hb.
    change (String left_brace "x}") with "{x}".
    rewrite replace_hits_head.
    change "{y}" with (String left_brace "y}") at 1.
    rewrite (replace_skips_brace_free "y}" _ a) by exact Ha.
    rewrite Hskip_z by reflexivity.
    rewrite (replace_skips_brace_free "y}" _ b) by exact Hb.
    rewrite (replace_skips_brace_free "y}" _ (to_string x)) by exact Hx.
    rewrite (replace_skips_brace_free "y}" _ c) by exact Hc.
    change (String left_brace "y}") with "{y}".
    rewrite replace_hits_head.
    change "{z}" with (String left_brace "z}") at 1.
    rewrite (replace_skips_brace_free "z}" _ a) by exact Ha.
    change (String left_brace "z}") with "{z}".
    rewrite replace_hits_head. reflexivity.
  - change "{x}" with (String left_brace "x}").
    change "{y}" with (String left_brace "y}").
    change "{z}" with (String left_brace "z}").
    rewrite (replace_brace_free "x}" _ a Ha).
    rewrite (replace_brace_free "y}" _ a Ha).
    rewrite (replace_brace_free "z}" _ a Ha). reflexivity.
Qed.

Lemma X14_zxy_template_witness :
  image_url ("https://earthengine.googleapis.com/map/m1/" +:+ "{z}" +:+ "/" +:+ "{x}"
             +:+ "/" +:+ "{y}" +:+ "?token=t") 3 7 2
  = "https://earthengine.googleapis.com/map/m1/" +:+ to_string 2 +:+ "/" +:+ to_string 3
    +:+ "/" +:+ to_string 7 +:+ "?token=t".
Proof.
  apply (X14_zxy_template "https://earthengine.googleapis.com/map/m1/" "/" "/"
           "?token=t" 3 7 2); reflexivity.
Defined.

(** ** Whole cycles: the first resolution, and a cycle without changes *)

Lemma ee_strict_eq_refl (v : EEVal) : ee_strict_eq v v = true.
Proof.
  destruct v; simpl; auto using Nat.eqb_refl, String.eqb_refl.
Qed.

Lemma _updateToken_quiet (env : Env) (props : Props.t) (w : World) :
  str_falsy (Props.token props) = true \/ Props.token props = accessToken w ->
  _updateToken env props w = (Ok tt, w).
Proof.
  intros H. unfold _updateToken. run_monad.
  destruct H as [-> | Heq]; [reflexivity|].
  rewrite bool_decide_eq_true_2 by exact Heq. rewrite orb_true_r. reflexivity.
Qed.

Lemma _updateToken_resolves (env : Env) (props : Props.t) (w : World) (t : string) :
  Props.token props = Some t -> eeApi_initialize env t = None ->
  exists w', _updateToken env props w = (Ok tt, w') /\
             state w' = state w /\
             (t <> "" -> accessToken w' = Some t).
Proof.
  intros Htok Hinit.
  destruct (_updateToken_cases env props w)
    as [[H Hwhy]|[(t' & Ht' & _ & _ & H)|(t' & e & Ht' & _ & Hrej & _)]].
  - exists w. split; [exact H|]. split; [reflexivity|]. intros Hne.
    destruct Hwhy as [Hfalsy|Heq]; [|congruence].
    rewrite Htok, (str_falsy_of_ne _ Hne) in Hfalsy. discriminate Hfalsy.
  - exists (established t' w). split; [exact H|]. split; [reflexivity|].
    intros _. simpl. congruence.
  - congruence.
Qed.

Lemma _updateEEObject_plain (env : Env) (props oldProps : Props.t) (w : World)
    (o : EEObject) :
  Props.eeObject props = EEObj o ->
  ee_strict_eq (Props.eeObject props) (Props.eeObject oldProps) = false ->
  Props.animate props = false ->
  _updateEEObject env props oldProps w = (Ok tt, handled (EEObj o) w).
Proof.
  intros Hobj Hchanged Hanim. unfold _updateEEObject.
  rewrite Hchanged, Hobj, Hanim. reflexivity.
Qed.

Lemma _updateEEVisParams_tiles (env : Env) (props oldProps : Props.t)
    (changeFlags : ChangeFlags) (w : World) (m : MapId) :
  guard_open props oldProps changeFlags ->
  ee_getMap (State.eeObject (state w)) = true ->
  Props.animate props = false ->
  promisifyEEMethod_getMap env (State.eeObject (state w)) (Props.visParams props) = Ok m ->
  _updateEEVisParams env props oldProps changeFlags w
  = (Ok tt, resolved (State.eeObject (state w)) (Props.visParams props) m imageTiles w).
Proof.
  intros Hopen Hmap Hanim Hanswer.
  unfold _updateEEVisParams. rewrite (guard_open_false _ _ _ Hopen).
  run_monad. rewrite Hmap, Hanim.
  assert (Htruthy : ee_truthy (State.eeObject (state w)) = true).
  { destruct (State.eeObject (state w)); simpl in *; congruence. }
  rewrite Htruthy. simpl. rewrite Hanswer. reflexivity.
Qed.

(** X15. The first resolution, end to end.  A cycle that brings a new
    mappable object without [animate], with a token the service accepts and
    a getMap call that resolves, succeeds: the token is the active
    credential, the object is the stored handle, the answer of getMap is the
    stored descriptor in tiled mode, and getMap was the last call.  A tile
    asked for afterwards is loaded from the answered template with the
    coordinates of the tile substituted, and is the one image that comes
    back. *)
Theorem X15_first_resolution (env : Env) (props oldProps : Props.t)
    (changeFlags : ChangeFlags) (w : World) (t : string) (o : EEObject) (m : MapId) :
  Props.token props = Some t ->
  t <> "" ->
  eeApi_initialize env t = None ->
  Props.eeObject props = EEObj o ->
  ee_strict_eq (Props.eeObject props) (Props.eeObject oldProps) = false ->
  has_getMap o = true ->
  Props.animate props = false ->
  guard_open props oldProps changeFlags ->
  promisifyEEMethod_getMap env (EEObj o) (Props.visParams props) = Ok m ->
  let r := updateState env props oldProps changeFlags w in
  fst r = Ok tt /\
  accessToken (snd r) = Some t /\
  State.eeObject (state (snd r)) = EEObj o /\
  State.mapid (state (snd r)) = mapid_of m /\
  State.urlFormat (state (snd r)) = urlFormat_of m /\
  State.renderMethod (state (snd r)) = Some imageTiles /\
  (exists earlier,
     trace (snd r) = (earlier ++ [CallGetMap (EEObj o) (Props.visParams props)])%list) /\
  (forall tile u, urlFormat_of m = Some u -> u <> "" ->
     let url := image_url u (tile_x tile) (tile_y tile) (tile_z tile) in
     let fetched := getTileData env props tile (snd r) in
     trace (snd fetched) = (trace (snd r) ++ [CallLoad url false])%list /\
     fst fetched = match load env url false with
                   | Ok image => Ok (Some [Whole image])
                   | Throw e => Throw e
                   end).
Proof.
  intros Htok Hne Hinit Hobj Hchanged Hmap Hanim Hopen Hanswer r. subst r.
  unfold updateState, bind.
  destruct (_updateToken_resolves env props w t Htok Hinit) as (w1 & -> & Hst1 & Hacc1).
  rewrite (_updateEEObject_plain env props oldProps w1 o Hobj Hchanged Hanim).
  rewrite (_updateEEVisParams_tiles env props oldProps changeFlags
             (handled (EEObj o) w1) m Hopen Hmap Hanim Hanswer).
  simpl.
  assert (Htile : forall w2,
    accessToken w2 = accessToken w1 ->
    State.urlFormat (state w2) = urlFormat_of m ->
    State.renderMethod (state w2) = Some imageTiles ->
    forall tile u, urlFormat_of m = Some u -> u <> "" ->
      trace (snd (getTileData env props tile w2))
      = (trace w2 ++ [CallLoad (image_url u (tile_x tile) (tile_y tile) (tile_z tile))
                        false])%list /\
      fst (getTileData env props tile w2)
      = match load env (image_url u (tile_x tile) (tile_y tile) (tile_z tile)) false with
        | Ok image => Ok (Some [Whole image])
        | Throw e => Throw e
        end).
  { intros w2 _ Hfmt Hmode tile u Hu Hune.
    unfold getTileData, getImageTileData. run_monad.
    rewrite Hmode, Hfmt, Hu, (str_falsy_of_ne _ Hune). simpl.
    destruct (load env _ false); split; reflexivity. }
  cycle_step; simpl;
    (split; [reflexivity|]); (split; [apply Hacc1; exact Hne|]);
    (split; [reflexivity|]); (split; [reflexivity|]);
    (split; [reflexivity|]); (split; [reflexivity|]);
    (split; [eexists; reflexivity|]);
    intros tile u Hu Hune; apply Htile; auto.
Qed.

Lemma X15_first_resolution_witness :
  fst (getTileData (Sample.service 512)
         (Sample.props_of Sample.image Sample.vis_a false) Sample.origin
         (snd (updateState (Sample.service 512)
                 (Sample.props_of Sample.image Sample.vis_a false)
                 (Props.mk None EEUndefined VisUndefined false 12)
                 Sample.unflagged Sample.fresh)))
  = match load (Sample.service 512)
            (image_url "https://x/{z}/{x}/{y}.png" 3 7 2) false with
    | Ok image => Ok (Some [Whole image])
    | Throw e => Throw e
    end.
Proof.
  destruct (X15_first_resolution (Sample.service 512)
              (Sample.props_of Sample.image Sample.vis_a false)
              (Props.mk None EEUndefined VisUndefined false 12)
              Sample.unflagged Sample.fresh "T1" Sample.image
              {| mapid_of := Some "m1";
                 urlFormat_of := Some "https://x/{z}/{x}/{y}.png" |})
    as (_ & _ & _ & _ & _ & _ & _ & Htile).
  - reflexivity.
  - discriminate.
  - reflexivity.
  - reflexivity.
  - reflexivity.
  - reflexivity.
  - reflexivity.
  - left. reflexivity.
  - reflexivity.
  - destruct (Htile Sample.origin "https://x/{z}/{x}/{y}.png") as [_ Hfetched].
    + reflexivity.
    + discriminate.
    + exact Hfetched.
Defined.

(** X16. A cycle in which nothing changed is quiet: with the same props as
    before, no data-changed flag and a token that is empty or already active,
    the cycle succeeds without any call and leaves the world as it was, but
    for the frame that the clock may write. *)
Theorem X16_unchanged_props_quiet (env : Env) (props : Props.t)
    (changeFlags : ChangeFlags) (w : World) :
  dataChanged changeFlags = false ->
  str_falsy (Props.token props) = true \/ Props.token props = accessToken w ->
  updateState env props props changeFlags w = (Ok tt, w)
  \/ exists f, updateState env props props changeFlags w = (Ok tt, ticked f w).
Proof.
  intros Hflag Htok. unfold updateState, bind.
  rewrite (_updateToken_quiet env props w Htok).
  unfold _updateEEObject. rewrite ee_strict_eq_refl.
  unfold _updateEEVisParams. rewrite vis_strict_eq_refl, Hflag. simpl.
  unfold ret.
  destruct (_animate_cases env props w) as [->|(f & ->)]; [left|right; exists f];
    reflexivity.
Qed.

Lemma X16_unchanged_props_quiet_witness :
  updateState (Sample.service 512)
    (Sample.props_of Sample.collection Sample.vis_a true)
    (Sample.props_of Sample.collection Sample.vis_a true)
    Sample.unflagged Sample.playing
  = (Ok tt, Sample.playing)
  \/ exists f,
       updateState (Sample.service 512)
         (Sample.props_of Sample.collection Sample.vis_a true)
         (Sample.props_of Sample.collection Sample.vis_a true)
         Sample.unflagged Sample.playing
       = (Ok tt, ticked f Sample.playing).
Proof.
  apply (X16_unchanged_props_quiet (Sample.service 512)
           (Sample.props_of Sample.collection Sample.vis_a true)
           Sample.unflagged Sample.playing).
  - reflexivity.
  - right. reflexivity.
Defined.
